(** * dnscache-go: a caching DNS resolver and dialer

    A shallow embedding of the resolver's cache store (cache.go), its
    lookup path (lookup, lookupAndCache, LookupHost, LookupAddr, LookupIP),
    its constructor (New) and its dialer (DialContext), with the
    properties of the design document stated over them.

    Conventions.
    - [time.Time] and [time.Duration] are integers counting nanoseconds.
    - A Go slice that may be [nil] is an [option (list _)]: [None] is the
      nil slice, [Some []] an empty slice that is not nil.
    - A Go [error] that may be [nil] is an [option error].
    - Code that reads or writes the resolver is written in a state monad
      over the resolver and the world outside it.
    - Callers at the same time take turns: each runs lookup piece by piece,
      cut where it calls the group, in any order with the others. *)

From stdpp Require Import base gmap strings list fin_maps.
From Stdlib Require Import ZArith Lia Ascii.

Local Open Scope Z_scope.

(** ** Time, slices and errors *)

Abbreviation Time := Z (only parsing).
Abbreviation Duration := Z (only parsing).

(** [time.Time{}], the zero time. *)
Definition zeroTime : Time := 0.

(** [[]string], nil or not. *)
Abbreviation strings := (option (list string)) (only parsing).

(** The elements a [range] loop over the slice visits. *)
Definition elems {A} (s : option (list A)) : list A := default [] s.

(** The error values the resolver meets: the two context errors, the errors of
    the upstream resolver and of the dialer (opaque, told apart by their
    message), the address error of [net.SplitHostPort], the [*net.OpError]
    built by DialContext, and the formatted error of [lookup]. *)
Inductive error : Type :=
  | Canceled
  | DeadlineExceeded
  | ErrOther (msg : string)
  | AddrError (Err Addr : string)
  | UnknownNetworkError (msg : string)
  | OpError (Op Net : string) (Err : error)
  | ErrUnexpectedType (T : string).

(** ** The cache store (cache.go) *)

Module CacheStore.

Record cacheItem : Type := mkItem {
  ips : strings;
  err : option error;
  expireAt : Time;
  used : bool
}.

(** [item.used = b], through the pointer the map holds. *)
Definition set_used (b : bool) (item : cacheItem) : cacheItem :=
  {| ips := ips item; err := err item; expireAt := expireAt item; used := b |}.

(** [store map[string]*cacheItem]; the mutex is not modelled, every method
    runs alone. *)
Abbreviation memoryCache := (gmap string cacheItem) (only parsing).

Definition newMemoryCache : memoryCache := ∅.

(** Get reads the item under the read lock, then, when the item was not yet
    marked, looks the key up again under the write lock and marks it. *)
Definition Get (key : string) (c : memoryCache)
  : (strings * option error * Time) * memoryCache :=
  match c !! key with
  | None => ((None, None, zeroTime), c)
  | Some item =>
      let c' :=
        if negb (used item) then
          match c !! key with
          | Some item' => <[key := set_used true item']> c
          | None => c
          end
        else c in
      ((ips item, err item, expireAt item), c')
  end.

(** Set replaces the item; [now] is the value of [time.Now()]. *)
Definition Set_ (now : Time) (key : string) (ips : strings) (err : option error)
    (ttl : Duration) (c : memoryCache) : memoryCache :=
  <[key := {| ips := ips; err := err; expireAt := now + ttl; used := true |}]> c.

(** One iteration of the loop of Prune, on the store being swept. *)
Definition prune_step (key : string) (item : cacheItem)
    (acc : memoryCache * Z) : memoryCache * Z :=
  let '(store, deleted) := acc in
  if negb (used item) then (delete key store, deleted + 1)
  else (<[key := set_used false item]> store, deleted).

(** Prune ranges over the store and deletes or unmarks each item it meets. *)
Definition Prune (c : memoryCache) : memoryCache * Z :=
  map_fold prune_step (c, 0) c.

(** *** Histories of operations *)

Inductive op : Type :=
  | OpGet (key : string)
  | OpSet (now : Time) (key : string) (ips : strings) (err : option error)
      (ttl : Duration)
  | OpPrune.

Definition step (c : memoryCache) (o : op) : memoryCache :=
  match o with
  | OpGet key => snd (Get key c)
  | OpSet now key ips err ttl => Set_ now key ips err ttl c
  | OpPrune => fst (Prune c)
  end.

Definition run (ops : list op) (c : memoryCache) : memoryCache :=
  fold_left step ops c.

(** Was [key] the argument of a Get or a Set since the last Prune of the
    history (since its start, when it has no Prune)? *)
Definition touch (key : string) (b : bool) (o : op) : bool :=
  match o with
  | OpGet k => if decide (k = key) then true else b
  | OpSet _ k _ _ _ => if decide (k = key) then true else b
  | OpPrune => false
  end.

Definition touched (key : string) (ops : list op) : bool :=
  fold_left (touch key) ops false.

(** *** What Prune does, item by item *)

Definition is_used (kv : string * cacheItem) : Prop := used (snd kv) = true.
Definition is_unused (kv : string * cacheItem) : Prop := used (snd kv) = false.

Lemma prune_fold (c m : gmap string cacheItem) :
  (∀ key, fst (map_fold prune_step (c, 0) m) !! key =
     match m !! key with
     | Some item => if used item then Some (set_used false item) else None
     | None => c !! key
     end)
  ∧ snd (map_fold prune_step (c, 0) m) = Z.of_nat (size (filter is_unused m)).
Proof.
  apply (map_fold_weak_ind (λ r m,
    (∀ key, fst r !! key =
       match m !! key with
       | Some item => if used item then Some (set_used false item) else None
       | None => c !! key
       end)
    ∧ snd r = Z.of_nat (size (filter is_unused m)))).
  - split; [intros key; by rewrite lookup_empty|].
    by rewrite map_filter_empty, map_size_empty.
  - intros i x m' [store deleted] Hi [Hl Hd]. simpl in Hl, Hd.
    unfold prune_step. destruct (used x) eqn:Hx; simpl; split.
    + intros key. destruct (decide (i = key)) as [->|Hne].
      * by rewrite !lookup_insert_eq, Hx.
      * by rewrite !lookup_insert_ne, Hl.
    + rewrite map_filter_insert_False by (unfold is_unused; simpl; congruence).
      by rewrite delete_id.
    + intros key. destruct (decide (i = key)) as [->|Hne].
      * by rewrite lookup_delete_eq, lookup_insert_eq, Hx.
      * by rewrite lookup_delete_ne, lookup_insert_ne, Hl.
    + rewrite map_filter_insert_True by done.
      rewrite map_size_insert_None; [lia|].
      rewrite map_lookup_filter, Hi. done.
Qed.

Lemma Prune_lookup (c : gmap string cacheItem) (key : string) :
  fst (Prune c) !! key =
    item ← c !! key; if used item then Some (set_used false item) else None.
Proof.
  unfold Prune. rewrite (proj1 (prune_fold c c)). by destruct (c !! key).
Qed.

Lemma Prune_store (c : gmap string cacheItem) :
  fst (Prune c) = set_used false <$> filter is_used c.
Proof.
  apply map_eq. intros key.
  rewrite Prune_lookup, lookup_fmap, map_lookup_filter.
  destruct (c !! key) as [item|]; simpl; [|done].
  unfold is_used. simpl. by destruct (used item).
Qed.

Lemma Prune_count (c : gmap string cacheItem) :
  Z.of_nat (size c) = snd (Prune c) + Z.of_nat (size (fst (Prune c))).
Proof.
  rewrite Prune_store, map_size_fmap. unfold Prune.
  rewrite (proj2 (prune_fold c c)).
  rewrite <-(map_filter_union_complement is_used c) at 1.
  rewrite map_size_disj_union by apply map_disjoint_filter_complement.
  assert (filter (λ kv, ¬ is_used kv) c = filter is_unused c) as ->.
  { apply map_filter_ext. intros k x _. unfold is_used, is_unused. simpl.
    destruct (used x); naive_solver. }
  lia.
Qed.

(** *** The mark of an item records the history since the last sweep *)

Lemma set_used_id (item : cacheItem) : used item = true → set_used true item = item.
Proof. destruct item; simpl; intros ->; done. Qed.

Lemma Get_lookup (key k : string) (c : gmap string cacheItem) :
  snd (Get key c) !! k =
    if decide (key = k) then set_used true <$> c !! k else c !! k.
Proof.
  unfold Get. destruct (c !! key) as [item|] eqn:Hkey; simpl.
  - destruct (used item) eqn:Hu; simpl; case_decide; subst;
      rewrite ?lookup_insert_eq, ?lookup_insert_ne, ?Hkey by done; simpl;
      rewrite ?set_used_id by done; done.
  - case_decide; subst; [by rewrite Hkey|done].
Qed.

Lemma Get_result (key : string) (c : gmap string cacheItem) :
  fst (Get key c) =
    match c !! key with
    | Some item => (ips item, err item, expireAt item)
    | None => (None, None, zeroTime)
    end.
Proof. unfold Get. by destruct (c !! key). Qed.

Lemma Set_lookup now key ips err ttl (c : gmap string cacheItem) (k : string) :
  Set_ now key ips err ttl c !! k =
    if decide (key = k) then Some (mkItem ips err (now + ttl) true) else c !! k.
Proof.
  unfold Set_. case_decide; subst; [by rewrite lookup_insert_eq|].
  by rewrite lookup_insert_ne.
Qed.

Lemma run_snoc (ops : list op) (o : op) (c : gmap string cacheItem) :
  run (ops ++ [o]) c = step (run ops c) o.
Proof. unfold run. by rewrite fold_left_app. Qed.

Lemma touched_snoc (key : string) (ops : list op) (o : op) :
  touched key (ops ++ [o]) = touch key (touched key ops) o.
Proof. unfold touched. by rewrite fold_left_app. Qed.

Lemma used_touched (ops : list op) (key : string) (item : cacheItem) :
  run ops newMemoryCache !! key = Some item → used item = touched key ops.
Proof.
  revert key item. induction ops as [|o ops IH] using rev_ind; intros key item.
  - unfold run, newMemoryCache. simpl. by rewrite lookup_empty.
  - rewrite run_snoc, touched_snoc. destruct o as [k|now k v e ttl|]; simpl.
    + rewrite Get_lookup. case_decide; subst.
      * destruct (run ops newMemoryCache !! key); simpl; [|done].
        by intros [= <-].
      * apply IH.
    + rewrite Set_lookup. case_decide; subst; [by intros [= <-]|apply IH].
    + rewrite Prune_lookup.
      destruct (run ops newMemoryCache !! key) as [it|]; simpl; [|done].
      destruct (used it); [|done]. by intros [= <-].
Qed.

(** C5. Mark and sweep. After any history of Get, Set and Prune on a new
    store, a Prune removes the item of a key exactly when the key was the
    argument of no Get and no Set since the previous Prune; an item that was
    created or read since then stays, with its mark cleared; every item
    that stays is unmarked; and Prune returns the number of items it
    removed. *)
Theorem Prune_mark_sweep (ops : list op) (key : string) :
  let c := run ops newMemoryCache in
  (fst (Prune c) !! key =
     if touched key ops then set_used false <$> c !! key else None)
  ∧ ((is_Some (c !! key) ∧ fst (Prune c) !! key = None)
     ↔ (is_Some (c !! key) ∧ touched key ops = false))
  ∧ map_Forall (λ _ item, used item = false) (fst (Prune c))
  ∧ snd (Prune c) = Z.of_nat (size c) - Z.of_nat (size (fst (Prune c))).
Proof.
  intros c.
  assert (fst (Prune c) !! key =
     if touched key ops then set_used false <$> c !! key else None) as Hk.
  { rewrite Prune_lookup. destruct (c !! key) as [item|] eqn:Hc; simpl.
    - rewrite <-(used_touched ops key item Hc). done.
    - by destruct (touched key ops). }
  split; [exact Hk|]. split; [|split].
  - rewrite Hk. split; intros [[item Hi] H]; (split; [by eexists|]).
    + rewrite Hi in H. by destruct (touched key ops).
    + by rewrite H.
  - intros k item. rewrite Prune_lookup.
    destruct (c !! k) as [it|]; simpl; [|done].
    destruct (used it); [|done]. by intros [= <-].
  - pose proof (Prune_count c). lia.
Qed.

(** The test of the sweep (TestMemoryCache_UsedFlag and
    TestMemoryCache_UsedFlagPreservation): an item set and never read
    survives one Prune and goes with the second; read in between, it stays. *)
Example Prune_two_generations :
  let c0 := Set_ 0 "test.com" (Some ["1.1.1.1"]) None 60000000000 newMemoryCache in
  let c1 := fst (Prune c0) in
  snd (Prune c0) = 0
  ∧ snd (Prune c1) = 1
  ∧ fst (Prune c1) !! "test.com" = None
  ∧ snd (Prune (snd (Get "test.com" c1))) = 0
  ∧ is_Some (fst (Prune (snd (Get "test.com" c1))) !! "test.com").
Proof. vm_compute. repeat split; eauto. Qed.

(** *** More on Get, Set and Prune, on any store *)

Lemma Get_twice (key : string) (c : gmap string cacheItem) :
  Get key (snd (Get key c)) = (fst (Get key c), snd (Get key c)).
Proof.
  rewrite (surjective_pairing (Get key (snd (Get key c)))). f_equal.
  - rewrite !Get_result, Get_lookup. case_decide; [|done].
    by destruct (c !! key).
  - apply map_eq. intros k. rewrite !Get_lookup. case_decide; [|done].
    by destruct (c !! k).
Qed.

(** X1. Get reads only. It adds and removes no key, changes the values, the
    error and the expiry of no item, and leaves the items of the other keys
    as they are; for a key that is not stored it returns nil values, no error
    and the zero time and leaves the store as it is; a second Get of the key
    returns what the first returned and changes nothing more. *)
Theorem Get_reads_only (key : string) (c : gmap string cacheItem) :
  dom (snd (Get key c)) = dom c
  ∧ (∀ k, (λ item, (ips item, err item, expireAt item)) <$> snd (Get key c) !! k
          = (λ item, (ips item, err item, expireAt item)) <$> c !! k)
  ∧ (∀ k, k ≠ key → snd (Get key c) !! k = c !! k)
  ∧ (c !! key = None → Get key c = ((None, None, zeroTime), c))
  ∧ Get key (snd (Get key c)) = (fst (Get key c), snd (Get key c)).
Proof.
  assert (∀ k, (λ item, (ips item, err item, expireAt item)) <$> snd (Get key c) !! k
             = (λ item, (ips item, err item, expireAt item)) <$> c !! k) as Hsame.
  { intros k. rewrite Get_lookup. case_decide; [|done]. by destruct (c !! k). }
  split; [|split; [exact Hsame|split; [|split]]].
  - apply set_eq. intros k. rewrite !elem_of_dom. specialize (Hsame k).
    destruct (snd (Get key c) !! k), (c !! k); simpl in Hsame; try done;
      split; intros [? ?]; eauto; done.
  - intros k Hk. rewrite Get_lookup. by case_decide.
  - intros Hnone. unfold Get. by rewrite Hnone.
  - apply Get_twice.
Qed.

(** X2. Set, then Get. Whatever the store held for the key, after Set the
    Get of the key returns the values, the error and the expiry [now + ttl]
    that were set, and changes nothing; the Get of any other key returns
    what it returned before; and of two Sets of one key only the last
    counts. *)
Theorem Set_then_Get now key v e ttl (c : gmap string cacheItem) :
  Get key (Set_ now key v e ttl c) = ((v, e, now + ttl), Set_ now key v e ttl c)
  ∧ (∀ k, k ≠ key → fst (Get k (Set_ now key v e ttl c)) = fst (Get k c))
  ∧ (∀ now' v' e' ttl',
       Set_ now key v e ttl (Set_ now' key v' e' ttl' c) = Set_ now key v e ttl c).
Proof.
  split; [|split].
  - unfold Get, Set_. by rewrite lookup_insert_eq.
  - intros k Hk. rewrite !Get_result, Set_lookup. by case_decide.
  - intros now' v' e' ttl'. unfold Set_. by rewrite insert_insert_eq.
Qed.

(** X3. Two sweeps. Two Prunes in a row, with no Get and no Set between
    them, leave the store empty, whatever it held; together they return the
    number of items it held. *)
Theorem Prune_twice_empties (c : gmap string cacheItem) :
  fst (Prune (fst (Prune c))) = ∅
  ∧ snd (Prune c) + snd (Prune (fst (Prune c))) = Z.of_nat (size c).
Proof.
  assert (fst (Prune (fst (Prune c))) = ∅) as Hempty.
  { apply map_empty. intros k. rewrite !Prune_lookup.
    destruct (c !! k) as [item|]; simpl; [|done].
    by destruct (used item). }
  split; [exact Hempty|].
  pose proof (Prune_count c) as H1.
  pose proof (Prune_count (fst (Prune c))) as H2.
  rewrite Hempty, map_size_empty in H2. lia.
Qed.

(** X4. What a sweep keeps and counts. An item that a Prune keeps was in
    the store and marked, and keeps its values, error and expiry; the number
    returned lies between zero and the size of the store; it is zero exactly
    when every item was marked, and the store is left empty exactly when no
    item was. *)
Theorem Prune_keeps_marked (c : gmap string cacheItem) :
  (∀ k item, fst (Prune c) !! k = Some item →
     used item = false ∧ c !! k = Some (set_used true item))
  ∧ 0 ≤ snd (Prune c) ≤ Z.of_nat (size c)
  ∧ (snd (Prune c) = 0 ↔ map_Forall (λ _ item, used item = true) c)
  ∧ (fst (Prune c) = ∅ ↔ map_Forall (λ _ item, used item = false) c).
Proof.
  split; [|split; [|split]].
  - intros k item. rewrite Prune_lookup.
    destruct (c !! k) as [[v e t u]|]; simpl; [|done].
    destruct u; [|done]. by intros [= <-].
  - pose proof (Prune_count c). unfold Prune in *.
    rewrite (proj2 (prune_fold c c)) in *. lia.
  - unfold Prune. rewrite (proj2 (prune_fold c c)).
    rewrite <-Nat2Z.inj_0, Nat2Z.inj_iff, map_size_empty_iff, map_empty.
    split.
    + intros H k item Hk. specialize (H k).
      rewrite map_lookup_filter, Hk in H. simpl in H.
      destruct (decide (is_unused (k, item))) as [Hu|Hu].
      * by rewrite option_guard_True in H.
      * clear H. unfold is_unused in Hu. simpl in Hu. by destruct (used item).
    + intros H k. rewrite map_lookup_filter.
      destruct (c !! k) as [item|] eqn:Hk; simpl; [|done].
      rewrite option_guard_False; [done|].
      unfold is_unused. simpl. by rewrite (H k item Hk).
  - rewrite map_empty. split.
    + intros H k item Hk. specialize (H k). rewrite Prune_lookup, Hk in H.
      simpl in H. by destruct (used item).
    + intros H k. rewrite Prune_lookup.
      destruct (c !! k) as [item|] eqn:Hk; simpl; [|done].
      by rewrite (H k item Hk).
Qed.

End CacheStore.

Export CacheStore.

(** ** Configuration and contexts (resolver.go) *)

(** The hooks OnCacheMiss and OnChange are functions of the caller; a field
    says whether the hook is set, and a call of a hook is an event of the
    run. *)
Record Config : Type := mkConfig {
  Disabled : bool;
  OnCacheMiss : bool;
  OnChange : bool;
  CacheTTL : Duration;
  CacheFailTTL : Duration;
  EnableAutoRefresh : bool;
  PersistOnFailure : bool;
  CleanupInterval : Duration
}.

Definition Millisecond : Duration := 1000000.
Definition Second : Duration := 1000 * Millisecond.
Definition Minute : Duration := 60 * Second.

(** [httptrace.ClientTrace]: which of its two DNS hooks are set. *)
Record ClientTrace : Type := mkTrace {
  DNSStart : bool;
  DNSDone : bool
}.

(** A [context.Context]: the time its cancel function is called, its deadline,
    and the trace it carries, each if any. *)
Record Ctx : Type := mkCtx {
  cancelAt : option Time;
  deadline : option Time;
  clientTrace : option ClientTrace
}.

(** [context.Background()]. *)
Definition Background : Ctx :=
  {| cancelAt := None; deadline := None; clientTrace := None |}.

(** [ctx.Err()] at time [now]: the first of cancellation and deadline that has
    come. *)
Definition ctx_Err (ctx : Ctx) (now : Time) : option error :=
  let cancelled := match cancelAt ctx with Some t => bool_decide (t ≤ now) | None => false end in
  let expired := match deadline ctx with Some t => bool_decide (t ≤ now) | None => false end in
  match cancelled, expired with
  | false, false => None
  | true, false => Some Canceled
  | false, true => Some DeadlineExceeded
  | true, true =>
      match cancelAt ctx, deadline ctx with
      | Some tc, Some td => if bool_decide (td < tc) then Some DeadlineExceeded else Some Canceled
      | _, _ => Some Canceled
      end
  end.

(** The two upstream calls that [lookup] is used with. *)
Inductive fetcher : Type := upstreamLookupHost | upstreamLookupAddr.

(** What a run does outside the resolver, in order. *)
Inductive Event : Type :=
  | EvOnCacheMiss (key : string)
  | EvOnChange (key : string) (ips : strings)
  | EvDNSStart (Host : string)
  | EvDNSDone (Err : option error)
  | EvUpstream (f : fetcher) (key : string)
  | EvUpstreamIP (network host : string)
  | EvDial (network address : string) (err : option error).

(** The value a [singleflight.Group] hands back, an [interface{}]: nil, a
    [[]string], or a value of another type. *)
Inductive any : Type :=
  | any_nil
  | any_strings (v : strings)
  | any_other (T : string).

(** [values, ok := v.([]string)]. *)
Definition assert_strings (v : any) : strings * bool :=
  match v with
  | any_strings values => (values, true)
  | _ => (None, false)
  end.

(** [%T] of a value. *)
Definition type_name (v : any) : string :=
  match v with
  | any_nil => "<nil>"
  | any_strings _ => "[]string"
  | any_other T => T
  end.

Record ResolverStats : Type := mkStats {
  CacheHits : Z;
  CacheMisses : Z
}.

(** [atomic.AddUint64(&x, 1)]. *)
Definition AddUint64 (x delta : Z) : Z := (x + delta) mod 2 ^ 64.

(** New fills in the two lifetimes left at zero. The cleanup loop it starts
    is a timer calling Refresh(true). *)
Definition New_config (config : Config) : Config :=
  {| Disabled := Disabled config;
     OnCacheMiss := OnCacheMiss config;
     OnChange := OnChange config;
     CacheTTL := if bool_decide (CacheTTL config = 0) then Minute else CacheTTL config;
     CacheFailTTL :=
       if bool_decide (CacheFailTTL config = 0) then 1 * Second else CacheFailTTL config;
     EnableAutoRefresh := EnableAutoRefresh config;
     PersistOnFailure := PersistOnFailure config;
     CleanupInterval := CleanupInterval config |}.

(** ** The resolver over an outside world *)

Section Resolver.

Set Default Proof Using "Type".

(** The world outside the resolver: its clock, the upstream resolver
    ([r.upstream]), the dialer ([r.dialer]) and the functions of package
    [net] the resolver calls. Upstream and dialer may read and change the
    world (time passes, a mock counts its calls). *)
Context {World IP Conn : Type}.
Variable Now : World → Time.
Variable upstream_LookupHost : Ctx → string → World → (strings * option error) * World.
Variable upstream_LookupAddr : Ctx → string → World → (strings * option error) * World.
Variable upstream_LookupIP :
  Ctx → string → string → World → (option (list IP) * option error) * World.
Variable dialer_DialContext :
  Ctx → string → string → World → (option Conn * option error) * World.
Variable SplitHostPort : string → (string * string) + error.
Variable JoinHostPort : string → string → string.
Variable ParseIP : string → option IP.
Variable To4 : IP → option IP.
Variable To16 : IP → option IP.

(** The resolver ([config], [cache], [stats]), the world, the events so far
    and the goroutines started and not yet run (each a background refresh of
    a key). *)
Record State : Type := mkState {
  config : Config;
  cache : gmap string cacheItem;
  stats : ResolverStats;
  world : World;
  events : list Event;
  goroutines : list (fetcher * string)
}.

Definition M (A : Type) : Type := State → A * State.

#[global] Instance M_ret : MRet M := λ A a s, (a, s).
#[global] Instance M_bind : MBind M :=
  λ A B f m s, let '(a, s') := m s in f a s'.

Definition set_cache (c : gmap string cacheItem) (s : State) : State :=
  mkState (config s) c (stats s) (world s) (events s) (goroutines s).
Definition set_stats (st : ResolverStats) (s : State) : State :=
  mkState (config s) (cache s) st (world s) (events s) (goroutines s).
Definition set_world (w : World) (s : State) : State :=
  mkState (config s) (cache s) (stats s) w (events s) (goroutines s).
Definition add_event (e : Event) (s : State) : State :=
  mkState (config s) (cache s) (stats s) (world s) (events s ++ [e]) (goroutines s).
Definition add_goroutine (g : fetcher * string) (s : State) : State :=
  mkState (config s) (cache s) (stats s) (world s) (events s) (goroutines s ++ [g]).

(** [r.config]. *)
Definition r_config : M Config := λ s, (config s, s).
(** [time.Now()]: the clock of the world. The world moves on in the calls of
    the upstream and of the dialer, and between the steps of the callers (the
    later worlds of the statements below, the moves [Pass] of a schedule);
    readings that no such move separates give one instant. *)
Definition time_Now : M Time := λ s, (Now (world s), s).
(** [if hook != nil { hook(...) }]: the call of a hook that is set. *)
Definition emit_if (b : bool) (e : Event) : M unit :=
  λ s, (tt, mkState (config s) (cache s) (stats s) (world s)
              (events s ++ (if b then [e] else [])) (goroutines s)).
(** [trace != nil && trace.hook != nil]. *)
Definition has_hook (hook : ClientTrace → bool) (trace : option ClientTrace) : bool :=
  match trace with
  | Some tr => hook tr
  | None => false
  end.
(** [go func() { ... }()]. *)
Definition go (g : fetcher * string) : M unit := λ s, (tt, add_goroutine g s).

(** lookup.go is written against a Get that returns the values and the
    expiry, and a Set that takes no error. Over the store of cache.go, the
    error of the item read is dropped and the error written is nil. *)

(** [r.cache.Get(key)], values and expiry. *)
Definition cache_Get (key : string) : M (strings * Time) :=
  λ s, let '((values, _, expireAt), c) := Get key (cache s) in
       ((values, expireAt), set_cache c s).

(** [r.cache.Set(key, results, ttl)]. *)
Definition cache_Set (key : string) (results : strings) (ttl : Duration) : M unit :=
  λ s, (tt, set_cache (Set_ (Now (world s)) key results None ttl (cache s)) s).

Definition add_CacheHits : M unit :=
  λ s, (tt, set_stats (mkStats (AddUint64 (CacheHits (stats s)) 1) (CacheMisses (stats s))) s).
Definition add_CacheMisses : M unit :=
  λ s, (tt, set_stats (mkStats (CacheHits (stats s)) (AddUint64 (CacheMisses (stats s)) 1)) s).

Definition upstream_of (f : fetcher)
  : Ctx → string → World → (strings * option error) * World :=
  match f with
  | upstreamLookupHost => upstream_LookupHost
  | upstreamLookupAddr => upstream_LookupAddr
  end.

(** A call of [r.upstream.LookupHost] or [r.upstream.LookupAddr]. *)
Definition call_upstream (f : fetcher) (ctx : Ctx) (key : string)
  : M (strings * option error) :=
  λ s, let '(res, w) := upstream_of f ctx key (world s) in
       (res, add_event (EvUpstream f key) (set_world w s)).

(** A call of [r.upstream.LookupIP]. *)
Definition call_upstream_IP (ctx : Ctx) (network host : string)
  : M (option (list IP) * option error) :=
  λ s, let '(res, w) := upstream_LookupIP ctx network host (world s) in
       (res, add_event (EvUpstreamIP network host) (set_world w s)).

(** A call of [r.dialer.DialContext]. *)
Definition call_dialer (ctx : Ctx) (network address : string)
  : M (option Conn * option error) :=
  λ s, let '(res, w) := dialer_DialContext ctx network address (world s) in
       (res, add_event (EvDial network address (snd res)) (set_world w s)).

(** [r.lookupGroup.Do(key, fn)] for a caller that finds no call in flight
    for its key: it runs [fn] and is handed its result, not shared. *)
Definition lookupGroup_Do (key : string) (fn : M (any * option error))
  : M (any * option error * bool) :=
  '(v, err) ← fn; mret (v, err, false).

(** *** lookupAndCache *)

Definition lookupAndCache (ctx : Ctx) (key : string) (f : fetcher)
  : M (strings * option error) :=
  cfg ← r_config;
  _ ← emit_if (OnCacheMiss cfg) (EvOnCacheMiss key);
  let trace := clientTrace ctx in
  _ ← emit_if (has_hook DNSStart trace) (EvDNSStart key);
  '(results, err) ← call_upstream f ctx key;
  _ ← emit_if (has_hook DNSDone trace) (EvDNSDone err);
  match err with
  | Some e => mret (None, Some e)
  | None =>
      now ← time_Now;
      match ctx_Err ctx now with
      | Some e => mret (None, Some e)
      | None =>
          _ ← cache_Set key results (CacheTTL cfg);
          mret (results, None)
      end
  end.

(** *** lookup *)

(** The function handed to the group: the cache once more, then the fetch. *)
Definition lookup_flight (ctx : Ctx) (key : string)
    (doFetch : Ctx → string → M (strings * option error))
  : M (any * option error) :=
  '(values, expireAt) ← cache_Get key;
  now ← time_Now;
  if bool_decide (values ≠ None) && bool_decide (now < expireAt) then
    mret (any_strings values, None)
  else
    '(res, err) ← doFetch ctx key;
    mret (any_strings res, err).

(** The asynchronous refresh of a hit, when the entry is past half of the
    configured lifetime. *)
Definition maybe_refresh (cfg : Config) (f : fetcher) (key : string)
    (expireAt : Time) : M unit :=
  if EnableAutoRefresh cfg then
    let ttl := CacheTTL cfg in
    now ← time_Now;
    if bool_decide (0 < ttl) && bool_decide (expireAt - now < ttl `quot` 2) then
      go (f, key)
    else mret tt
  else mret tt.

(** LookupHost and LookupAddr hand lookup the closure over lookupAndCache
    with their upstream call; [f] names that call, and [doFetch] is the
    closure. *)
Definition lookup (ctx : Ctx) (key : string) (f : fetcher)
  : M (strings * option error) :=
  let doFetch := λ ctx key, lookupAndCache ctx key f in
  '(values, expireAt) ← cache_Get key;
  now ← time_Now;
  cfg ← r_config;
  if bool_decide (values ≠ None) && bool_decide (now < expireAt) then
    _ ← add_CacheHits;
    _ ← maybe_refresh cfg f key expireAt;
    mret (values, None)
  else
    _ ← add_CacheMisses;
    '(v, err, shared) ← lookupGroup_Do key (lookup_flight ctx key doFetch);
    match err with
    | Some e =>
        if PersistOnFailure cfg then
          '(values, _) ← cache_Get key;
          if bool_decide (values ≠ None) then mret (values, None)
          else mret (None, Some e)
        else mret (None, Some e)
    | None =>
        let '(values, ok) := assert_strings v in
        if ok then mret (values, None)
        else mret (None, Some (ErrUnexpectedType (type_name v)))
    end.

(** The goroutine of a refresh, when it runs: the fetch under the background
    context, through the group, its result dropped. *)
Definition run_refresh (g : fetcher * string) : M unit :=
  let '(f, key) := g in
  _ ← lookupGroup_Do key
        ('(res, err) ← lookupAndCache Background key f; mret (any_strings res, err));
  mret tt.

Definition LookupHost (ctx : Ctx) (host : string) : M (strings * option error) :=
  cfg ← r_config;
  if Disabled cfg then call_upstream upstreamLookupHost ctx host
  else lookup ctx host upstreamLookupHost.

Definition LookupAddr (ctx : Ctx) (addr : string) : M (strings * option error) :=
  cfg ← r_config;
  if Disabled cfg then call_upstream upstreamLookupAddr ctx addr
  else lookup ctx addr upstreamLookupAddr.

(** *** LookupIP *)

(** [append(ips, ip)]. *)
Definition append {A} (s : option (list A)) (x : A) : option (list A) :=
  Some (elems s ++ [x]).

(** The body of the loop of LookupIP over the strings of the forward lookup. *)
Definition filter_ip (network : string) (ips : option (list IP)) (s : string)
  : option (list IP) :=
  match ParseIP s with
  | None => ips
  | Some ip =>
      if bool_decide (network = "ip4") then
        if bool_decide (is_Some (To4 ip)) then append ips ip else ips
      else if bool_decide (network = "ip6") then
        if bool_decide (To4 ip = None ∧ is_Some (To16 ip)) then append ips ip else ips
      else append ips ip
  end.

Definition LookupIP (ctx : Ctx) (network host : string)
  : M (option (list IP) * option error) :=
  cfg ← r_config;
  if Disabled cfg then call_upstream_IP ctx network host
  else
    '(ipStrings, err) ← LookupHost ctx host;
    match err with
    | Some e => mret (None, Some e)
    | None => mret (fold_left (filter_ip network) (elems ipStrings) None, None)
    end.

(** *** DialContext (dial.go) *)

(** The error of a dial that had no address to try. *)
Definition no_addresses (network : string) : error :=
  OpError "dial" network (UnknownNetworkError "no addresses found").

(** The loop over the addresses, and what follows it. *)
Fixpoint dial_each (ctx : Ctx) (network port : string) (ips : list string)
    (lastErr : option error) : M (option Conn * option error) :=
  match ips with
  | [] =>
      match lastErr with
      | Some e => mret (None, Some e)
      | None => mret (None, Some (no_addresses network))
      end
  | ip :: rest =>
      let targetAddr := JoinHostPort ip port in
      '(conn, err) ← call_dialer ctx network targetAddr;
      match err with
      | None => mret (conn, None)
      | Some e => dial_each ctx network port rest (Some e)
      end
  end.

Definition DialContext (ctx : Ctx) (network address : string)
  : M (option Conn * option error) :=
  cfg ← r_config;
  if Disabled cfg then call_dialer ctx network address
  else
    match SplitHostPort address with
    | inr e => mret (None, Some e)
    | inl (host, port) =>
        '(ips, err) ← LookupHost ctx host;
        match err with
        | Some e => mret (None, Some e)
        | None => dial_each ctx network port (elems ips) None
        end
    end.

(** *** Refresh, Stats and New *)

Definition Refresh (clearUnused : bool) : M unit :=
  if clearUnused then λ s, (tt, set_cache (fst (Prune (cache s))) s)
  else mret tt.

Definition Stats : M ResolverStats := λ s, (stats s, s).

(** A new resolver in a world. *)
Definition New (cfg : Config) (w : World) : State :=
  mkState (New_config cfg) newMemoryCache (mkStats 0 0) w [] [].

(** *** Callers at the same time

    A caller of lookup meets the others at the cache and at the group. The
    group ([singleflight.Group] of golang.org/x/sync) lets one function run
    for a key at a time: a caller whose call of [Do] finds a call in flight
    for its key waits for it and is handed its result; a caller that finds
    none runs its own function, which is the call in flight until it
    returns. lookup is cut at its call of the group, and a caller runs one
    piece at a time, the others between the pieces. *)

(** lookup up to its call of the group: the answer of a hit, or a miss
    counted. *)
Definition lookup_before (ctx : Ctx) (key : string) (f : fetcher)
  : M (option (strings * option error)) :=
  '(values, expireAt) ← cache_Get key;
  now ← time_Now;
  cfg ← r_config;
  if bool_decide (values ≠ None) && bool_decide (now < expireAt) then
    _ ← add_CacheHits;
    _ ← maybe_refresh cfg f key expireAt;
    mret (Some (values, None))
  else
    _ ← add_CacheMisses;
    mret None.

(** lookup from the return of the group on. *)
Definition lookup_after (key : string) (v : any) (err : option error)
  : M (strings * option error) :=
  cfg ← r_config;
  match err with
  | Some e =>
      if PersistOnFailure cfg then
        '(values, _) ← cache_Get key;
        if bool_decide (values ≠ None) then mret (values, None)
        else mret (None, Some e)
      else mret (None, Some e)
  | None =>
      let '(values, ok) := assert_strings v in
      if ok then mret (values, None)
      else mret (None, Some (ErrUnexpectedType (type_name v)))
  end.

(** A call of lookup: its context, its key and the upstream call of its
    fetch. *)
Record Caller : Type := mkCaller {
  caller_ctx : Ctx;
  caller_key : string;
  caller_fetch : fetcher
}.

(** How far a caller has come: it has called lookup; it has counted a miss
    and is about to call the group; its function is the call in flight; it
    waits for the call in flight; the group has returned to it; lookup has
    returned. *)
Inductive progress : Type :=
  | Called
  | Missed
  | Leading
  | Waiting
  | Handed (v : any) (err : option error)
  | Returned (res : strings * option error).

Definition leading (pr : progress) : bool :=
  match pr with Leading => true | _ => false end.
Definition waiting (pr : progress) : bool :=
  match pr with Waiting => true | _ => false end.

(** Is a call in flight for the key? *)
Definition in_flight (key : string) (p : list (Caller * progress)) : bool :=
  existsb (λ cp, leading (snd cp) && bool_decide (caller_key (fst cp) = key)) p.

(** The call in flight for the key returns: its result goes to the callers
    that wait for it. *)
Definition hand (key : string) (v : any) (err : option error)
    (p : list (Caller * progress)) : list (Caller * progress) :=
  (λ cp, if waiting (snd cp) && bool_decide (caller_key (fst cp) = key)
         then (fst cp, Handed v err) else cp) <$> p.

(** Caller [i] runs its next piece: lookup up to the group; the entry into
    [Do], leading or waiting; the function of the call in flight, from the
    second look at the cache to its return, the waiting callers served; lookup
    from the return of the group to its own. A caller that waits or has
    returned does nothing. *)
Definition turn (i : nat) (sys : State * list (Caller * progress))
  : State * list (Caller * progress) :=
  let '(s, p) := sys in
  match p !! i with
  | None => sys
  | Some (c, pr) =>
      match pr with
      | Called =>
          let '(hit, s') :=
            lookup_before (caller_ctx c) (caller_key c) (caller_fetch c) s in
          (s', <[i := (c, match hit with
                          | Some res => Returned res
                          | None => Missed
                          end)]> p)
      | Missed =>
          (s, <[i := (c, if in_flight (caller_key c) p then Waiting else Leading)]> p)
      | Leading =>
          let '((v, err), s') :=
            lookup_flight (caller_ctx c) (caller_key c)
              (λ ctx key, lookupAndCache ctx key (caller_fetch c)) s in
          (s', <[i := (c, Handed v err)]> (hand (caller_key c) v err p))
      | Handed v err =>
          let '(res, s') := lookup_after (caller_key c) v err s in
          (s', <[i := (c, Returned res)]> p)
      | Waiting | Returned _ => sys
      end
  end.

(** A schedule: the turns of the callers, and the world moving on between
    them. *)
Inductive move : Type :=
  | Turn (i : nat)
  | Pass (w : World).


Definition make (sys : State * list (Caller * progress)) (m : move)
  : State * list (Caller * progress) :=
  match m with
  | Turn i => turn i sys
  | Pass w => (set_world w (fst sys), snd sys)
  end.

Definition play (ms : list move) (sys : State * list (Caller * progress))
  : State * list (Caller * progress) :=
  fold_left make ms sys.

(** Callers of one key that have just called lookup, one for each context. *)
Definition start (key : string) (f : fetcher) (ctxs : list Ctx)
  : list (Caller * progress) :=
  (λ ctx, (mkCaller ctx key f, Called)) <$> ctxs.







(** ** What the properties are stated with *)

(** The failure a fetch of [key] ends in, if any: the error of the upstream
    call, or else the error of the context once the call is back. *)
Definition fetch_failure (f : fetcher) (ctx : Ctx) (key : string) (w : World)
  : option error :=
  let '((_, uerr), w') := upstream_of f ctx key w in
  match uerr with
  | Some e => Some e
  | None => ctx_Err ctx (Now w')
  end.

(** The events of one fetch: the miss hook, the start of the trace, the
    upstream call, the end of the trace. *)
Definition fetch_events (cfg : Config) (ctx : Ctx) (f : fetcher) (key : string)
    (uerr : option error) : list Event :=
  (if OnCacheMiss cfg then [EvOnCacheMiss key] else [])
  ++ (if has_hook DNSStart (clientTrace ctx) then [EvDNSStart key] else [])
  ++ [EvUpstream f key]
  ++ (if has_hook DNSDone (clientTrace ctx) then [EvDNSDone uerr] else []).

(** What is cached, the marks of the sweep apart. *)
Definition contents (c : gmap string cacheItem)
  : gmap string (strings * option error * Time) :=
  (λ item, (ips item, err item, expireAt item)) <$> c.

(** The values and the expiry that lookup reads for a key. *)
Definition cached (key : string) (c : gmap string cacheItem) : strings * Time :=
  let '(values, _, expireAt) := fst (Get key c) in (values, expireAt).

(** Is the entry of [key] a hit at time [now]? *)
Definition fresh (key : string) (c : gmap string cacheItem) (now : Time) : bool :=
  bool_decide (fst (cached key c) ≠ None) && bool_decide (now < snd (cached key c)).



(** Is the event a call of the hook OnChange? *)
Definition is_OnChange (e : Event) : bool :=
  match e with
  | EvOnChange _ _ => true
  | _ => false
  end.

(** The addresses LookupIP keeps for a network, of the parsed ones. *)
Definition keep (network : string) (ips : list IP) : list IP :=
  if bool_decide (network = "ip4") then filter (λ ip, is_Some (To4 ip)) ips
  else if bool_decide (network = "ip6")
       then filter (λ ip, To4 ip = None ∧ is_Some (To16 ip)) ips
       else ips.

(** What the dialer answers when the addresses are dialled one after another
    from the world [w], each with the world it leaves. *)
Fixpoint dial_results (ctx : Ctx) (network port : string) (ips : list string)
    (w : World) : list ((option Conn * option error) * World) :=
  match ips with
  | [] => []
  | ip :: rest =>
      let r := dialer_DialContext ctx network (JoinHostPort ip port) w in
      r :: dial_results ctx network port rest (snd r)
  end.

Definition dial_failed (r : (option Conn * option error) * World) : Prop :=
  is_Some (snd (fst r)).

(** The dial events of the addresses tried, with their answers. *)
Definition dial_events (network port : string) (ips : list string)
    (rs : list ((option Conn * option error) * World)) : list Event :=
  zip_with (λ ip r, EvDial network (JoinHostPort ip port) (snd (fst r))) ips rs.

(** ** Properties of the lookup path *)

(** Unfolds the monad and the calls on the resolver and the world. *)
Ltac unfold_M :=
  unfold lookupGroup_Do, lookup_flight, lookupAndCache, maybe_refresh,
    cache_Get, cache_Set, call_upstream, call_dialer, call_upstream_IP,
    add_CacheHits, add_CacheMisses, emit_if, go, time_Now, r_config,
    mbind, M_bind, mret, M_ret.

(** The result of lookupAndCache, and what it leaves in the cache. *)
Lemma lookupAndCache_run ctx key f s :
  let '((results, uerr), w) := upstream_of f ctx key (world s) in
  let r := lookupAndCache ctx key f s in
  world (snd r) = w
  ∧ config (snd r) = config s
  ∧ stats (snd r) = stats s
  ∧ events (snd r) = events s ++ fetch_events (config s) ctx f key uerr
  ∧ goroutines (snd r) = goroutines s
  ∧ match fetch_failure f ctx key (world s) with
    | Some e => fst r = (None, Some e) ∧ cache (snd r) = cache s
    | None =>
        fst r = (results, None)
        ∧ cache (snd r) = Set_ (Now w) key results None (CacheTTL (config s)) (cache s)
    end.
Proof.
  unfold fetch_failure, fetch_events. unfold_M. simpl.
  destruct (upstream_of f ctx key (world s)) as [[results uerr] w]. simpl.
  destruct uerr as [e|]; simpl.
  - by rewrite <-!app_assoc.
  - destruct (ctx_Err ctx (Now w)); simpl; by rewrite <-!app_assoc.
Qed.

(** The failure of a fetch is the error lookupAndCache returns. *)
Lemma lookupAndCache_failure ctx key f s :
  snd (fst (lookupAndCache ctx key f s)) = fetch_failure f ctx key (world s).
Proof.
  pose proof (lookupAndCache_run ctx key f s) as H.
  destruct (upstream_of f ctx key (world s)) as [[results uerr] w].
  destruct H as (_ & _ & _ & _ & _ & H).
  destruct (fetch_failure f ctx key (world s)); by destruct H as [-> _].
Qed.

(** What Get returns is read off the contents, and Get changes none. *)
Lemma Get_contents (key : string) (c : gmap string cacheItem) :
  contents (snd (Get key c)) = contents c.
Proof.
  apply map_eq. intros k. unfold contents.
  rewrite !lookup_fmap, Get_lookup. case_decide; [|done].
  by destruct (c !! k).
Qed.

Lemma Get_of_contents (key : string) (c : gmap string cacheItem) :
  fst (Get key c) = default (None, None, zeroTime) (contents c !! key).
Proof.
  rewrite Get_result. unfold contents. rewrite lookup_fmap.
  by destruct (c !! key).
Qed.

Lemma Set_contents now key v e ttl (c : gmap string cacheItem) :
  contents (Set_ now key v e ttl c) = <[key := (v, e, now + ttl)]> (contents c).
Proof. unfold contents, Set_. by rewrite fmap_insert. Qed.

Lemma cached_contents key (c c' : gmap string cacheItem) :
  contents c = contents c' → cached key c = cached key c'.
Proof. unfold cached. rewrite !Get_of_contents. by intros ->. Qed.

Lemma fresh_contents key (c c' : gmap string cacheItem) now :
  contents c = contents c' → fresh key c now = fresh key c' now.
Proof. unfold fresh. intros H. by rewrite (cached_contents key c c' H). Qed.

(** A lookup that is a hit: the cached values, no fetch, no write. *)
Lemma lookup_hit ctx key f s :
  fresh key (cache s) (Now (world s)) = true →
  let r := lookup ctx key f s in
  fst r = (fst (cached key (cache s)), None)
  ∧ contents (cache (snd r)) = contents (cache s)
  ∧ world (snd r) = world s
  ∧ events (snd r) = events s
  ∧ stats (snd r) =
      mkStats (AddUint64 (CacheHits (stats s)) 1) (CacheMisses (stats s))
  ∧ config (snd r) = config s.
Proof.
  unfold fresh, cached, lookup. unfold_M.
  pose proof (Get_contents key (cache s)) as Hc.
  destruct (Get key (cache s)) as [[[values e] expireAt] c].
  cbn [fst snd world set_cache] in *.
  intros ->. cbn.
  destruct (EnableAutoRefresh (config s)); cbn; [|done].
  destruct (_ && _); cbn; done.
Qed.

(** A lookup that is a miss, by the outcome of its fetch: on a failure
    nothing is written, and the failure is returned unless
    PersistOnFailure finds values to return in its place; on a success the
    result is written with the lifetime CacheTTL and returned. *)
Lemma lookup_miss ctx key f s :
  fresh key (cache s) (Now (world s)) = false →
  let '((results, uerr), w) := upstream_of f ctx key (world s) in
  let r := lookup ctx key f s in
  world (snd r) = w
  ∧ stats (snd r) =
      mkStats (CacheHits (stats s)) (AddUint64 (CacheMisses (stats s)) 1)
  ∧ events (snd r) = events s ++ fetch_events (config s) ctx f key uerr
  ∧ goroutines (snd r) = goroutines s
  ∧ config (snd r) = config s
  ∧ match fetch_failure f ctx key (world s) with
    | Some e =>
        contents (cache (snd r)) = contents (cache s)
        ∧ fst r =
            if PersistOnFailure (config s)
               && bool_decide (fst (cached key (cache s)) ≠ None)
            then (fst (cached key (cache s)), None)
            else (None, Some e)
    | None =>
        contents (cache (snd r)) =
          <[key := (results, None, Now w + CacheTTL (config s))]> (contents (cache s))
        ∧ fst r = (results, None)
    end.
Proof.
  intros Hfresh.
  pose proof (lookupAndCache_run ctx key f) as Hrun.
  destruct (upstream_of f ctx key (world s)) as [[results uerr] w] eqn:Hup.
  unfold lookup.
  unfold lookupGroup_Do, lookup_flight, cache_Get, add_CacheMisses, time_Now,
    r_config, mbind, M_bind, mret, M_ret.
  unfold fresh, cached in Hfresh.
  pose proof (Get_contents key (cache s)) as Hc1.
  destruct (Get key (cache s)) as [[[values e0] expireAt] c1] eqn:HG1.
  assert (cached key (cache s) = (values, expireAt)) as Hcd.
  { unfold cached. by rewrite HG1. }
  simpl in *. rewrite Hfresh. simpl.
  assert (fst (Get key c1) = (values, e0, expireAt)) as HG2.
  { rewrite Get_of_contents, Hc1, <-Get_of_contents, HG1. done. }
  pose proof (Get_contents key c1) as Hc2.
  destruct (Get key c1) as [[[values2 e2] expireAt2] c2]. simpl in *.
  injection HG2 as -> -> ->. rewrite Hfresh.
  match goal with |- context [lookupAndCache ctx key f ?s2] =>
    specialize (Hrun s2); simpl in Hrun; rewrite Hup in Hrun;
    destruct (lookupAndCache ctx key f s2) as [[res err] s3] end.
  simpl in *. destruct Hrun as (Hw & Hcfg & Hst & Hev & Hgo & Hrun).
  destruct (fetch_failure f ctx key (world s)) as [e|].
  - destruct Hrun as [[= -> ->] Hcache].
    destruct (PersistOnFailure (config s)); simpl.
    + assert (fst (Get key (cache s3)) = (values, e0, expireAt)) as HG3.
      { rewrite Get_of_contents, Hcache, Hc2, Hc1, <-Get_of_contents, HG1. done. }
      pose proof (Get_contents key (cache s3)) as Hc3.
      destruct (Get key (cache s3)) as [[[values3 e3] expireAt3] c3]. simpl in *.
      injection HG3 as -> -> ->.
      rewrite Hcd. simpl.
      destruct (bool_decide (values ≠ None)); simpl;
        rewrite ?Hw, ?Hst, ?Hev, ?Hgo, ?Hcfg, ?Hc3, ?Hcache, ?Hc2, ?Hc1; done.
    + rewrite ?Hw, ?Hst, ?Hev, ?Hgo, ?Hcfg, ?Hcache, ?Hc2, ?Hc1; done.
  - destruct Hrun as [[= -> ->] Hcache]. simpl.
    rewrite Hw, Hst, Hev, Hgo, Hcfg, Hcache, Set_contents, Hc2, Hc1. done.
Qed.

(** No lookup calls the hook OnChange: the events it adds are those of at most
    one fetch, and a call of the hook is none of them. *)
Lemma lookup_calls_no_OnChange ctx key f s :
  ∃ evs, events (snd (lookup ctx key f s)) = events s ++ evs
         ∧ existsb is_OnChange evs = false.
Proof.
  destruct (fresh key (cache s) (Now (world s))) eqn:Hfresh.
  - destruct (lookup_hit ctx key f s Hfresh) as (_ & _ & _ & -> & _).
    exists []. by rewrite app_nil_r.
  - pose proof (lookup_miss ctx key f s Hfresh) as H.
    destruct (upstream_of f ctx key (world s)) as [[results uerr] w].
    destruct H as (_ & _ & -> & _). eexists. split; [done|].
    unfold fetch_events.
    destruct (OnCacheMiss _), (has_hook DNSStart _), (has_hook DNSDone _); done.
Qed.

(** C4. Stale values on failure. When the cache holds values [V] for a key,
    expired so that the lookup goes to the group, and the fetch of the key
    ends in the failure [e], the lookup returns [V] with no error when
    PersistOnFailure is set, and the failure [e] when it is not. *)
Theorem PersistOnFailure_returns_stale ctx key f s item V e :
  cache s !! key = Some item →
  ips item = Some V →
  expireAt item ≤ Now (world s) →
  fetch_failure f ctx key (world s) = Some e →
  fst (lookup ctx key f s) =
    if PersistOnFailure (config s) then (Some V, None) else (None, Some e).
Proof.
  intros Hitem HV Hexp Hfail.
  assert (cached key (cache s) = (Some V, expireAt item)) as Hcd.
  { unfold cached. by rewrite Get_result, Hitem, HV. }
  assert (fresh key (cache s) (Now (world s)) = false) as Hfresh.
  { unfold fresh. rewrite Hcd. cbn [fst snd].
    apply andb_false_iff. right. apply bool_decide_eq_false. lia. }
  pose proof (lookup_miss ctx key f s Hfresh) as H.
  destruct (upstream_of f ctx key (world s)) as [[results uerr] w].
  rewrite Hfail, Hcd in H. simpl in H.
  destruct H as (_ & _ & _ & _ & _ & _ & ->).
  by destruct (PersistOnFailure (config s)).
Qed.

(** C6, as the code has it. When the context of the caller is done by the
    time the upstream call is back, and the call failed with the error of
    the context or did not fail, nothing is written to the cache: the values,
    error and expiry cached for every key are as before. The error of the
    context is returned, unless PersistOnFailure is set and the cache holds
    values for the key, which are then returned in its place. *)
Theorem cancellation_not_cached ctx key f s e :
  fresh key (cache s) (Now (world s)) = false →
  ctx_Err ctx (Now (snd (upstream_of f ctx key (world s)))) = Some e →
  (snd (fst (upstream_of f ctx key (world s))) = None
   ∨ snd (fst (upstream_of f ctx key (world s))) = Some e) →
  contents (cache (snd (lookup ctx key f s))) = contents (cache s)
  ∧ fst (lookup ctx key f s) =
      if PersistOnFailure (config s)
         && bool_decide (fst (cached key (cache s)) ≠ None)
      then (fst (cached key (cache s)), None)
      else (None, Some e).
Proof.
  intros Hfresh Hctx Hup.
  pose proof (lookup_miss ctx key f s Hfresh) as H.
  assert (fetch_failure f ctx key (world s) = Some e) as Hfail.
  { unfold fetch_failure.
    destruct (upstream_of f ctx key (world s)) as [[results uerr] w].
    simpl in *. destruct Hup as [-> | ->]; done. }
  destruct (upstream_of f ctx key (world s)) as [[results uerr] w].
  rewrite Hfail in H. destruct H as (_ & _ & _ & _ & _ & Hc & Hr). done.
Qed.

(** C10. The value the group hands to lookup is a [[]string] on both paths
    of the function it runs, whatever the state it runs in, so the type
    assertion of lookup holds; and an error that lookup returns is the
    failure of its fetch, never the error of a failed assertion. *)
Theorem lookup_assertion_holds ctx key f s :
  snd (assert_strings
         (fst (fst (fst (lookupGroup_Do key
            (lookup_flight ctx key (λ ctx key, lookupAndCache ctx key f)) s)))))
    = true
  ∧ match snd (fst (lookup ctx key f s)) with
    | Some e => fetch_failure f ctx key (world s) = Some e
    | None => True
    end.
Proof.
  split.
  - unfold lookupGroup_Do, lookup_flight, cache_Get, time_Now,
      mbind, M_bind, mret, M_ret.
    destruct (Get key (cache s)) as [[[values e0] expireAt] c]. simpl.
    destruct (_ && _); simpl; [done|].
    by destruct (lookupAndCache _ _ _ _) as [[res err] s'].
  - destruct (fresh key (cache s) (Now (world s))) eqn:Hfresh.
    + destruct (lookup_hit ctx key f s Hfresh) as (-> & _). done.
    + pose proof (lookup_miss ctx key f s Hfresh) as H.
      destruct (upstream_of f ctx key (world s)) as [[results uerr] w].
      destruct (fetch_failure f ctx key (world s)) as [e|].
      * destruct H as (_ & _ & _ & _ & _ & _ & ->).
        by destruct (_ && _).
      * destruct H as (_ & _ & _ & _ & _ & _ & ->). done.
Qed.

(** ** Properties of LookupIP *)

Lemma filter_ip_fold (network : string) (l : list string) (acc : option (list IP)) :
  elems (fold_left (filter_ip network) l acc)
    = elems acc ++ keep network (omap ParseIP l)
  ∧ (fold_left (filter_ip network) l acc = None
     ↔ acc = None ∧ keep network (omap ParseIP l) = []).
Proof.
  revert acc. induction l as [|x l IH]; intros acc; simpl.
  - unfold keep. repeat case_bool_decide; simpl;
      rewrite ?app_nil_r; (split; [done|]);
      (split; [intros ->; done | intros [-> _]; done]).
  - destruct (IH (filter_ip network acc x)) as [IH1 IH2].
    rewrite IH1, IH2. clear IH IH1 IH2.
    unfold filter_ip, keep, append.
    destruct (ParseIP x) as [ip|]; simpl; [|done].
    repeat case_bool_decide; simpl; rewrite ?filter_cons;
      repeat case_decide; try (exfalso; by auto); simpl;
      rewrite <-?app_assoc; simpl; (split; [done|]);
      split; intros [? ?]; try discriminate; split; assumption.
Qed.

Lemma omap_all_parsed (l : list string) :
  Forall (λ x, is_Some (ParseIP x)) l → Some <$> omap ParseIP l = ParseIP <$> l.
Proof.
  induction 1 as [|x l [ip Hx] _ IH]; simpl; [done|].
  rewrite Hx. simpl. f_equal. exact IH.
Qed.

(** C9. Filtering by family. With the forward lookup of the host cached and
    fresh, with values [V], LookupIP returns no error and, of the addresses
    the strings of [V] parse to, in the order of [V]: for "ip4" those that
    have a 4-byte form; for "ip6" those that have none but have a 16-byte form;
    for "ip" all of them, one for each string of [V] when every string
    parses. *)
Theorem LookupIP_filters_by_family ctx network host s V :
  Disabled (config s) = false →
  fresh host (cache s) (Now (world s)) = true →
  fst (cached host (cache s)) = Some V →
  snd (fst (LookupIP ctx network host s)) = None
  ∧ (network = "ip4" →
       elems (fst (fst (LookupIP ctx network host s)))
         = filter (λ ip, is_Some (To4 ip)) (omap ParseIP V))
  ∧ (network = "ip6" →
       elems (fst (fst (LookupIP ctx network host s)))
         = filter (λ ip, To4 ip = None ∧ is_Some (To16 ip)) (omap ParseIP V))
  ∧ (network = "ip" →
       elems (fst (fst (LookupIP ctx network host s))) = omap ParseIP V
       ∧ (Forall (λ x, is_Some (ParseIP x)) V →
          Some <$> elems (fst (fst (LookupIP ctx network host s)))
            = ParseIP <$> V)).
Proof.
  intros Hen Hfresh HV.
  destruct (lookup_hit ctx host upstreamLookupHost s Hfresh) as (Hr & _).
  assert (fst (LookupIP ctx network host s)
          = (fold_left (filter_ip network) V None, None)) as ->.
  { unfold LookupIP, LookupHost, r_config, mbind, M_bind, mret, M_ret.
    rewrite Hen. cbn beta. rewrite Hen. rewrite HV in Hr.
    destruct (lookup ctx host upstreamLookupHost s) as [[values err] s1].
    simpl in Hr. injection Hr as -> ->. done. }
  simpl. split; [done|].
  rewrite (proj1 (filter_ip_fold network V None)). simpl. unfold keep.
  split; [|split]; intros ->; repeat case_bool_decide; try done.
  split; [done|]. apply omap_all_parsed.
Qed.

(** ** Properties of DialContext *)

Lemma dial_each_spec ctx network port ips lastErr s :
  let rs := dial_results ctx network port ips (world s) in
  let r := dial_each ctx network port ips lastErr s in
  (∀ failed conn w' rest,
     rs = failed ++ ((conn, None), w') :: rest →
     Forall dial_failed failed →
     fst r = (conn, None)
     ∧ world (snd r) = w'
     ∧ events (snd r)
       = events s ++ dial_events network port ips (take (S (length failed)) rs))
  ∧ (Forall dial_failed rs →
     fst r = (None, Some (default (default (no_addresses network) lastErr)
                            (last rs ≫= λ x, snd (fst x))))
     ∧ world (snd r) = default (world s) (snd <$> last rs)
     ∧ events (snd r) = events s ++ dial_events network port ips rs).
Proof.
  revert lastErr s. induction ips as [|ip ips IH]; intros lastErr s; simpl.
  - split.
    + intros failed conn w' rest H. by destruct failed.
    + intros _. unfold dial_events. simpl. rewrite app_nil_r.
      by destruct lastErr.
  - unfold call_dialer, mbind, M_bind, mret, M_ret.
    destruct (dialer_DialContext ctx network (JoinHostPort ip port) (world s))
      as [[conn0 err0] w0] eqn:Hd. simpl.
    destruct err0 as [e|]; simpl.
    + match goal with |- context [dial_each _ _ _ _ _ ?s1] =>
        destruct (IH (Some e) s1) as [IH1 IH2] end.
      simpl in IH1, IH2. split.
      * intros failed conn w' rest H HF.
        destruct failed as [|x failed]; simpl in H; [by injection H|].
        injection H as <- H. apply Forall_cons in HF as [_ HF].
        destruct (IH1 failed conn w' rest H HF) as (-> & -> & ->).
        unfold dial_events. simpl. by rewrite <-app_assoc.
      * intros HF. apply Forall_cons in HF as [_ HF].
        destruct (IH2 HF) as (-> & -> & ->).
        unfold dial_events. simpl. rewrite <-app_assoc. simpl.
        destruct (dial_results ctx network port ips w0) as [|x rs] eqn:Hrs;
          simpl; [done|].
        rewrite !last_cons.
        assert (is_Some (last (x :: rs))) as [y Hy] by by apply last_is_Some.
        rewrite last_cons in Hy. rewrite Hy. simpl.
        assert (dial_failed y) as [e' He'].
        { eapply Forall_forall; [exact HF|]. apply last_Some_elem_of.
          by rewrite last_cons. }
        by rewrite He'.
    + split.
      * intros failed conn w' rest H HF.
        destruct failed as [|x failed]; simpl in H.
        -- injection H as -> -> _. simpl. unfold dial_events. simpl.
           by rewrite take_0, zip_with_nil_r.
        -- injection H as <- _. apply Forall_cons in HF as [[? HF] _].
           simpl in HF. done.
      * intros HF. apply Forall_cons in HF as [[? HF] _]. simpl in HF. done.
Qed.

(** Either every dial of a list fails, or there is a first one that does
    not. *)
Lemma dial_results_cases (rs : list ((option Conn * option error) * World)) :
  Forall dial_failed rs
  ∨ ∃ failed conn w' rest,
      rs = failed ++ ((conn, None), w') :: rest ∧ Forall dial_failed failed.
Proof.
  induction rs as [|[[conn [e|]] w] rs IH].
  - by left.
  - destruct IH as [IH | (failed & conn' & w' & rest & -> & HF)].
    + left. constructor; [by eexists|done].
    + right. exists (((conn, Some e), w) :: failed), conn', w', rest.
      split; [done|]. constructor; [by eexists|done].
  - right. by exists [], conn, w, rs.
Qed.

(** C7. Dialling with failover, the cache not disabled. An address that
    does not split into host and port is answered with the error of the split
    and nothing else happens: no lookup, no dial. A failed resolution is
    returned as it is. After a resolution with no error the addresses are
    dialled one after another in the order of the resolved list: the
    connection of the first dial that does not fail is returned and no
    further address is dialled; when every dial fails the error of the last
    one is returned; when the list is empty the error is the dial error
    "no addresses found". *)
Theorem DialContext_failover ctx network address s :
  Disabled (config s) = false →
  (∀ e, SplitHostPort address = inr e →
     DialContext ctx network address s = ((None, Some e), s))
  ∧ (∀ host port, SplitHostPort address = inl (host, port) →
     let l := LookupHost ctx host s in
     let r := DialContext ctx network address s in
     let ips := elems (fst (fst l)) in
     let rs := dial_results ctx network port ips (world (snd l)) in
     (∀ e, snd (fst l) = Some e → r = ((None, Some e), snd l))
     ∧ (snd (fst l) = None →
        (∀ failed conn w' rest,
           rs = failed ++ ((conn, None), w') :: rest →
           Forall dial_failed failed →
           fst r = (conn, None)
           ∧ world (snd r) = w'
           ∧ events (snd r)
             = events (snd l)
               ++ dial_events network port ips (take (S (length failed)) rs))
        ∧ (Forall dial_failed rs →
           fst r = (None, Some (default (no_addresses network)
                                  (last rs ≫= λ x, snd (fst x))))
           ∧ events (snd r) = events (snd l) ++ dial_events network port ips rs)
        ∧ (ips = [] → fst r = (None, Some (no_addresses network))))).
Proof.
  intros Hen. split.
  - intros e He. unfold DialContext, r_config, mbind, M_bind, mret, M_ret.
    by rewrite Hen, He.
  - intros host port Hsplit l r ips rs.
    assert (r = let '((v, err), s1) := l in
                match err with
                | Some e => ((None, Some e), s1)
                | None => dial_each ctx network port (elems v) None s1
                end) as Hr.
    { subst r l. unfold DialContext, r_config, mbind, M_bind, mret, M_ret.
      rewrite Hen, Hsplit. by destruct (LookupHost ctx host s) as [[v [e|]] s1]. }
    subst rs ips. destruct l as [[v err] s1]. simpl in *. split.
    + intros e ->. done.
    + intros ->. rewrite Hr.
      destruct (dial_each_spec ctx network port (elems v) None s1) as [H1 H2].
      simpl in H1, H2. split; [exact H1|]. split.
      * intros HF. destruct (H2 HF) as (-> & _ & ->). done.
      * intros Hnil. rewrite Hnil. done.
Qed.

(** ** Lookups at the same time *)


Lemma lookup_flight_run ctx key f s :
  let r := lookup_flight ctx key (λ ctx key, lookupAndCache ctx key f) s in
  config (snd r) = config s
  ∧ if fresh key (cache s) (Now (world s)) then
      fst r = (any_strings (fst (cached key (cache s))), None)
      ∧ contents (cache (snd r)) = contents (cache s)
      ∧ world (snd r) = world s
      ∧ events (snd r) = events s
    else
      let '((results, uerr), w) := upstream_of f ctx key (world s) in
      world (snd r) = w
      ∧ events (snd r) = events s ++ fetch_events (config s) ctx f key uerr
      ∧ match fetch_failure f ctx key (world s) with
        | Some e =>
            fst r = (any_strings None, Some e)
            ∧ contents (cache (snd r)) = contents (cache s)
        | None =>
            fst r = (any_strings results, None)
            ∧ contents (cache (snd r)) =
                <[key := (results, None, Now w + CacheTTL (config s))]>
                  (contents (cache s))
        end.
Proof.
  pose proof (lookupAndCache_run ctx key f) as Hrun.
  unfold fresh, cached, lookup_flight, cache_Get, time_Now, mbind, M_bind,
    mret, M_ret.
  pose proof (Get_contents key (cache s)) as Hc.
  destruct (Get key (cache s)) as [[[values e] expireAt] c].
  cbn [fst snd world set_cache] in *.
  destruct (bool_decide (values ≠ None) && bool_decide (Now (world s) < expireAt));
    cbn [fst snd]; [done|].
  match goal with |- context [lookupAndCache ctx key f ?s2] =>
    specialize (Hrun s2); cbn [world config events cache set_cache] in Hrun;
    destruct (lookupAndCache ctx key f s2) as [[res err] s3] end.
  destruct (upstream_of f ctx key (world s)) as [[results uerr] w].
  cbn [fst snd] in *. destruct Hrun as (Hw & Hcfg & _ & Hev & _ & Hrun).
  split; [done|]. split; [done|]. split; [done|].
  destruct (fetch_failure f ctx key (world s)) as [e'|].
  - destruct Hrun as [[= -> ->] Hcache]. by rewrite Hcache.
  - destruct Hrun as [[= -> ->] Hcache]. by rewrite Hcache, Set_contents, Hc.
Qed.


Lemma lookup_cut ctx key f s :
  lookup ctx key f s =
    let '(hit, s1) := lookup_before ctx key f s in
    match hit with
    | Some res => (res, s1)
    | None =>
        let '((v, err), s2) :=
          lookup_flight ctx key (λ ctx key, lookupAndCache ctx key f) s1 in
        lookup_after key v err s2
    end.
Proof.
  unfold lookup, lookup_before, lookup_after, lookupGroup_Do, cache_Get,
    time_Now, r_config, add_CacheHits, add_CacheMisses, mbind, M_bind, mret,
    M_ret.
  destruct (Get key (cache s)) as [[[values e] expireAt] c].
  cbn [fst snd world set_cache].
  destruct (bool_decide (values ≠ None) && bool_decide (Now (world s) < expireAt)).
  - by destruct (maybe_refresh _ _ _ _ _) as [[] s1].
  - match goal with |- context [lookup_flight ctx key ?d ?s1] =>
      pose proof (proj1 (lookup_flight_run ctx key f s1)) as Hcfg;
      unfold cache_Get, mbind, M_bind, mret, M_ret in Hcfg;
      destruct (lookup_flight ctx key d s1) as [[v err] s2] end.
    cbn [fst snd config set_stats set_cache] in *. by rewrite Hcfg.
Qed.

(** *** No caller waits for ever *)






Lemma play_cons m ms (sys : State * list (Caller * progress)) :
  play (m :: ms) sys = play ms (make sys m).
Proof. done. Qed.








(** *** One fetch for the callers of a key *)





(** A caller alone: its four turns are lookup. *)
Lemma turns_alone c s :
  play [Turn 0; Turn 0; Turn 0; Turn 0] (s, [(c, Called)])
  = (snd (lookup (caller_ctx c) (caller_key c) (caller_fetch c) s),
     [(c, Returned (fst (lookup (caller_ctx c) (caller_key c) (caller_fetch c) s)))]).
Proof.
  assert (∀ s, turn 0 (s, [(c, Called)]) =
            let '(hit, s1) :=
              lookup_before (caller_ctx c) (caller_key c) (caller_fetch c) s in
            (s1, [(c, match hit with
                      | Some res => Returned res
                      | None => Missed
                      end)])) as H1 by done.
  assert (∀ s, turn 0 (s, [(c, Missed)]) = (s, [(c, Leading)])) as H2 by done.
  assert (∀ s, turn 0 (s, [(c, Leading)]) =
            let '((v, err), s2) :=
              lookup_flight (caller_ctx c) (caller_key c)
                (λ ctx key, lookupAndCache ctx key (caller_fetch c)) s in
            (s2, [(c, Handed v err)])) as H3 by done.
  assert (∀ s v err, turn 0 (s, [(c, Handed v err)]) =
            let '(res, s3) := lookup_after (caller_key c) v err s in
            (s3, [(c, Returned res)])) as H4 by done.
  assert (∀ s res, turn 0 (s, [(c, Returned res)]) = (s, [(c, Returned res)]))
    as H5 by done.
  rewrite lookup_cut, !play_cons. cbn [play fold_left make].
  rewrite H1. destruct (lookup_before _ _ _ _) as [[res|] s1].
  { by rewrite !H5. }
  rewrite H2, H3. destruct (lookup_flight _ _ _ _) as [[v err] s2].
  rewrite H4. by destruct (lookup_after _ _ _ _) as [res s3].
Qed.


(** ** More on the lookup path *)

(** The cache a lookup leaves: the store after the Get of the key, with the
    answer of a fetch that did not fail set in it. *)
Lemma lookup_cache ctx key f s :
  cache (snd (lookup ctx key f s)) =
    if fresh key (cache s) (Now (world s)) then snd (Get key (cache s))
    else match fetch_failure f ctx key (world s) with
         | Some _ => snd (Get key (cache s))
         | None =>
             Set_ (Now (snd (upstream_of f ctx key (world s)))) key
               (fst (fst (upstream_of f ctx key (world s)))) None
               (CacheTTL (config s)) (snd (Get key (cache s)))
         end.
Proof.
  pose proof (lookupAndCache_run ctx key f) as Hrun.
  unfold fresh, cached, lookup.
  unfold lookupGroup_Do, lookup_flight, cache_Get, add_CacheHits,
    add_CacheMisses, maybe_refresh, go, time_Now, r_config,
    mbind, M_bind, mret, M_ret.
  pose proof (Get_twice key (cache s)) as H2.
  destruct (Get key (cache s)) as [[[values e0] expireAt] c1] eqn:HG1.
  cbn [fst snd world cache set_cache set_stats config] in *.
  destruct (bool_decide (values ≠ None) && bool_decide (Now (world s) < expireAt))
    eqn:Hfresh; cbn [fst snd world cache set_cache set_stats config].
  - destruct (EnableAutoRefresh (config s)); [|done].
    destruct (bool_decide (0 < _) && _); cbn; done.
  - rewrite H2. cbn [fst snd world cache set_cache set_stats config].
    rewrite Hfresh.
    match goal with |- context [lookupAndCache ctx key f ?s2] =>
      specialize (Hrun s2); cbn [fst snd world cache set_cache set_stats config] in Hrun;
      destruct (lookupAndCache ctx key f s2) as [[res err] s3] end.
    destruct (upstream_of f ctx key (world s)) as [[results uerr] w].
    cbn [fst snd] in *. destruct Hrun as (_ & _ & _ & _ & _ & Hrun).
    destruct (fetch_failure f ctx key (world s)) as [e|].
    + destruct Hrun as [[= -> ->] Hcache].
      destruct (PersistOnFailure (config s)); cbn; [|done].
      rewrite Hcache, H2. cbn. by destruct (bool_decide (values ≠ None)).
    + destruct Hrun as [[= -> ->] Hcache]. cbn. done.
Qed.

(** After a lookup, the item of its key, if any, is marked. *)
Lemma lookup_marks ctx key f s item :
  cache (snd (lookup ctx key f s)) !! key = Some item → used item = true.
Proof.
  rewrite lookup_cache.
  assert (∀ it, snd (Get key (cache s)) !! key = Some it → used it = true) as HG.
  { intros it. rewrite Get_lookup. case_decide; [|done].
    destruct (cache s !! key); simpl; [|done]. by intros [= <-]. }
  destruct (fresh _ _ _); [apply HG|].
  destruct (fetch_failure _ _ _ _); [apply HG|].
  rewrite Set_lookup. case_decide; [|done]. by intros [= <-].
Qed.

(** The goroutines a hit starts. *)
Lemma lookup_hit_goroutines ctx key f s :
  fresh key (cache s) (Now (world s)) = true →
  goroutines (snd (lookup ctx key f s)) =
    goroutines s
    ++ (if EnableAutoRefresh (config s)
           && bool_decide (0 < CacheTTL (config s))
           && bool_decide (snd (cached key (cache s)) - Now (world s)
                           < CacheTTL (config s) `quot` 2)
        then [(f, key)] else []).
Proof.
  unfold fresh, cached, lookup. unfold_M.
  destruct (Get key (cache s)) as [[[values e] expireAt] c].
  cbn [fst snd world set_cache] in *.
  intros ->. cbn.
  destruct (EnableAutoRefresh (config s)); cbn; [|by rewrite app_nil_r].
  destruct (bool_decide (0 < _)); cbn; [|by rewrite app_nil_r].
  destruct (bool_decide (_ < _)); cbn; [done|by rewrite app_nil_r].
Qed.

(** Lookups one after another. *)
Definition lookups (calls : list (Ctx * string * fetcher)) (s : State) : State :=
  fold_left (λ s call, snd (lookup (fst (fst call)) (snd (fst call)) (snd call) s))
    calls s.

(** X5. A hit is served in any context. When the entry of the key is fresh,
    lookup returns its values, which are not nil, and no error, whatever the
    context of the caller, a cancelled one too; it calls no upstream and no
    hook, and leaves the world, the configuration and what is cached as they
    are. *)
Theorem hit_is_served_in_any_context ctx key f s :
  fresh key (cache s) (Now (world s)) = true →
  fst (lookup ctx key f s) = (fst (cached key (cache s)), None)
  ∧ fst (cached key (cache s)) ≠ None
  ∧ world (snd (lookup ctx key f s)) = world s
  ∧ events (snd (lookup ctx key f s)) = events s
  ∧ contents (cache (snd (lookup ctx key f s))) = contents (cache s)
  ∧ config (snd (lookup ctx key f s)) = config s.
Proof.
  intros Hfresh.
  destruct (lookup_hit ctx key f s Hfresh) as (Hr & Hc & Hw & He & _ & Hcfg).
  repeat split; try done.
  unfold fresh in Hfresh. apply andb_true_iff in Hfresh as [H _].
  by apply bool_decide_eq_true in H.
Qed.

(** X6. The upstream is called on a miss only, and once. The events of a
    lookup are none on a hit; on a miss they are, in this order, the call of
    OnCacheMiss if the hook is set, DNSStart if the context traces it, the
    one upstream call, and DNSDone with the error of that call if the context
    traces it. The world after is the one the upstream call leaves. *)
Theorem upstream_called_on_miss_only ctx key f s :
  events (snd (lookup ctx key f s)) =
    events s
    ++ (if fresh key (cache s) (Now (world s)) then []
        else fetch_events (config s) ctx f key
               (snd (fst (upstream_of f ctx key (world s)))))
  ∧ world (snd (lookup ctx key f s)) =
      if fresh key (cache s) (Now (world s)) then world s
      else snd (upstream_of f ctx key (world s)).
Proof.
  destruct (fresh key (cache s) (Now (world s))) eqn:Hfresh.
  - destruct (lookup_hit ctx key f s Hfresh) as (_ & _ & -> & -> & _).
    by rewrite app_nil_r.
  - pose proof (lookup_miss ctx key f s Hfresh) as H.
    destruct (upstream_of f ctx key (world s)) as [[results uerr] w].
    by destruct H as (-> & _ & -> & _).
Qed.

(** X7. The counters count the lookups. A lookup adds one, modulo 2^64, to
    CacheHits when it is a hit and to CacheMisses when it is not, and leaves
    the other counter; so after any lookups one after another the sum of the
    two counters has grown by their number, modulo 2^64. *)
Theorem counters_count_lookups (calls : list (Ctx * string * fetcher)) ctx key f s :
  stats (snd (lookup ctx key f s)) =
    (if fresh key (cache s) (Now (world s))
     then mkStats (AddUint64 (CacheHits (stats s)) 1) (CacheMisses (stats s))
     else mkStats (CacheHits (stats s)) (AddUint64 (CacheMisses (stats s)) 1))
  ∧ (CacheHits (stats (lookups calls s)) + CacheMisses (stats (lookups calls s)))
      mod 2 ^ 64
    = (CacheHits (stats s) + CacheMisses (stats s) + Z.of_nat (length calls))
        mod 2 ^ 64.
Proof.
  assert (∀ ctx key f s,
    stats (snd (lookup ctx key f s)) =
      (if fresh key (cache s) (Now (world s))
       then mkStats (AddUint64 (CacheHits (stats s)) 1) (CacheMisses (stats s))
       else mkStats (CacheHits (stats s)) (AddUint64 (CacheMisses (stats s)) 1)))
    as Hone.
  { clear. intros ctx key f s.
    destruct (fresh key (cache s) (Now (world s))) eqn:Hfresh.
    - by destruct (lookup_hit ctx key f s Hfresh) as (_ & _ & _ & _ & -> & _).
    - pose proof (lookup_miss ctx key f s Hfresh) as H.
      destruct (upstream_of f ctx key (world s)) as [[results uerr] w].
      by destruct H as (_ & -> & _). }
  split; [apply Hone|]. clear ctx key f.
  revert s. induction calls as [|[[ctx key] f] calls IH]; intros s.
  - unfold lookups. simpl. by rewrite Z.add_0_r.
  - assert (∀ a b c, ((a + 1) mod 2 ^ 64 + b + c) mod 2 ^ 64
                      = (a + b + Z.succ c) mod 2 ^ 64) as Hl.
    { intros a b c. rewrite <-Z.add_assoc, Zplus_mod_idemp_l. f_equal. lia. }
    assert (∀ a b c, (a + (b + 1) mod 2 ^ 64 + c) mod 2 ^ 64
                      = (a + b + Z.succ c) mod 2 ^ 64) as Hr.
    { intros a b c. rewrite (Z.add_comm a), Hl. f_equal. lia. }
    unfold lookups in *. simpl. rewrite IH, Hone. clear IH.
    rewrite Nat2Z.inj_succ.
    destruct (fresh _ _ _); cbn [CacheHits CacheMisses]; unfold AddUint64.
    + apply Hl.
    + apply Hr.
Qed.

(** X8. The answer of a fetch is stored from the time it arrives. When a
    lookup misses and its fetch does not fail, the lookup returns the answer
    of the upstream with no error and stores it for the key, marked, with the
    expiry CacheTTL after the time at which the upstream call came back; the
    items of the other keys are as before. *)
Theorem fetched_answer_is_stored ctx key f s :
  fresh key (cache s) (Now (world s)) = false →
  fetch_failure f ctx key (world s) = None →
  fst (lookup ctx key f s) = (fst (fst (upstream_of f ctx key (world s))), None)
  ∧ cache (snd (lookup ctx key f s)) !! key =
      Some (mkItem (fst (fst (upstream_of f ctx key (world s)))) None
              (Now (snd (upstream_of f ctx key (world s))) + CacheTTL (config s))
              true)
  ∧ (∀ k, k ≠ key → cache (snd (lookup ctx key f s)) !! k = cache s !! k).
Proof.
  intros Hfresh Hfail.
  pose proof (lookup_miss ctx key f s Hfresh) as H.
  pose proof (lookup_cache ctx key f s) as Hc.
  rewrite Hfresh, Hfail in Hc. rewrite Hc.
  destruct (upstream_of f ctx key (world s)) as [[results uerr] w].
  rewrite Hfail in H. destruct H as (_ & _ & _ & _ & _ & _ & ->).
  simpl. split; [done|]. split.
  - rewrite Set_lookup. by case_decide.
  - intros k Hk. rewrite Set_lookup. case_decide; [congruence|].
    rewrite Get_lookup. by case_decide.
Qed.

(** X9. How long a stored answer is served. After a miss whose fetch did not
    fail, the entry the lookup leaves for the key is a hit at a later reading
    of the clock exactly when the answer of the upstream is not the nil slice
    and the clock then reads less than CacheTTL after the time the entry was
    stored at. A nil answer with no error is stored and never served; and
    with a CacheTTL of zero or below no later reading finds the entry fresh:
    the next lookup fetches again. *)
Theorem stored_answer_is_hit_iff ctx key f s w' :
  fresh key (cache s) (Now (world s)) = false →
  fetch_failure f ctx key (world s) = None →
  (fresh key (cache (snd (lookup ctx key f s))) (Now w') = true
   ↔ fst (fst (upstream_of f ctx key (world s))) ≠ None
     ∧ Now w' < Now (snd (upstream_of f ctx key (world s))) + CacheTTL (config s))
  ∧ (CacheTTL (config s) ≤ 0 →
     Now (snd (upstream_of f ctx key (world s))) ≤ Now w' →
     fresh key (cache (snd (lookup ctx key f s))) (Now w') = false).
Proof.
  intros Hfresh Hfail.
  pose proof (lookup_cache ctx key f s) as Hc.
  rewrite Hfresh, Hfail in Hc. rewrite Hc.
  destruct (upstream_of f ctx key (world s)) as [[results uerr] w].
  unfold fresh, cached. rewrite Get_result, Set_lookup.
  case_decide; [|done]. cbn [fst snd].
  split.
  - rewrite andb_true_iff, !bool_decide_eq_true. done.
  - intros Httl Hlater. apply andb_false_iff. right.
    apply bool_decide_eq_false. cbn [expireAt]. lia.
Qed.

(** X10. The next lookup is served from the cache, whoever asks, until the
    entry expires. After a miss whose fetch returned values that are not nil,
    a lookup of the same key made later, when the clock of the world reads less
    than CacheTTL after the time the entry was stored at, returns those
    values with no error and calls no upstream, in any context and for either
    upstream call: LookupHost and LookupAddr share the entries of a key. Made
    when the clock reads that time or more, it is a miss and calls the
    upstream again. *)
Theorem next_lookup_is_served_from_cache ctx key f s V ctx' f' w' :
  fresh key (cache s) (Now (world s)) = false →
  fetch_failure f ctx key (world s) = None →
  fst (fst (upstream_of f ctx key (world s))) = Some V →
  let s1 := snd (lookup ctx key f s) in
  let expiry := Now (snd (upstream_of f ctx key (world s))) + CacheTTL (config s) in
  (Now w' < expiry →
     fst (lookup ctx' key f' (set_world w' s1)) = (Some V, None)
     ∧ events (snd (lookup ctx' key f' (set_world w' s1))) = events s1
     ∧ world (snd (lookup ctx' key f' (set_world w' s1))) = w')
  ∧ (expiry ≤ Now w' →
     events (snd (lookup ctx' key f' (set_world w' s1)))
       = events s1
         ++ fetch_events (config s) ctx' f' key
              (snd (fst (upstream_of f' ctx' key w')))).
Proof.
  intros Hfresh Hfail HV s1 expiry. subst s1 expiry.
  pose proof (lookup_miss ctx key f s Hfresh) as H.
  pose proof (lookup_cache ctx key f s) as Hc.
  rewrite Hfresh, Hfail in Hc. rewrite HV in Hc.
  destruct (upstream_of f ctx key (world s)) as [[results uerr] w].
  destruct H as (_ & _ & _ & _ & Hcfg & _). cbn [fst snd] in *.
  set (s1 := snd (lookup ctx key f s)) in *.
  assert (cached key (cache (set_world w' s1))
          = (Some V, Now w + CacheTTL (config s))) as Hcd.
  { unfold cached. cbn [cache set_world]. rewrite Hc, Get_result, Set_lookup.
    by case_decide. }
  split.
  - intros Hlt.
    assert (fresh key (cache (set_world w' s1)) (Now (world (set_world w' s1)))
            = true) as Hfresh'.
    { unfold fresh. rewrite Hcd. cbn [fst snd world set_world].
      apply andb_true_iff. split; apply bool_decide_eq_true; [done|lia]. }
    destruct (lookup_hit ctx' key f' _ Hfresh') as (-> & _ & -> & -> & _).
    by rewrite Hcd.
  - intros Hge.
    assert (fresh key (cache (set_world w' s1)) (Now (world (set_world w' s1)))
            = false) as Hfresh'.
    { unfold fresh. rewrite Hcd. cbn [fst snd world set_world].
      apply andb_false_iff. right. apply bool_decide_eq_false. lia. }
    pose proof (lookup_miss ctx' key f' _ Hfresh') as H.
    cbn [world set_world config events] in H.
    destruct (upstream_of f' ctx' key w') as [[results' uerr'] w2].
    destruct H as (_ & _ & -> & _). by rewrite Hcfg.
Qed.

(** X11. A failure with no values cached is returned. When no values are
    cached for the key and the fetch ends in a failure, lookup returns nil
    and that failure, with PersistOnFailure set or not, and what is cached
    stays as it is. *)
Theorem failure_without_values_is_returned ctx key f s e :
  fst (cached key (cache s)) = None →
  fetch_failure f ctx key (world s) = Some e →
  fst (lookup ctx key f s) = (None, Some e)
  ∧ contents (cache (snd (lookup ctx key f s))) = contents (cache s).
Proof.
  intros Hnone Hfail.
  assert (fresh key (cache s) (Now (world s)) = false) as Hfresh.
  { unfold fresh. rewrite Hnone. done. }
  pose proof (lookup_miss ctx key f s Hfresh) as H.
  destruct (upstream_of f ctx key (world s)) as [[results uerr] w].
  rewrite Hfail, Hnone in H. destruct H as (_ & _ & _ & _ & _ & -> & ->).
  by rewrite andb_false_r.
Qed.

(** X12. When a hit starts a refresh. A lookup starts a goroutine, and one
    only, exactly when it is a hit, EnableAutoRefresh is set, CacheTTL is
    above zero and the entry has less than half of CacheTTL (the half rounded
    towards zero) left to live; a miss starts none. *)
Theorem hit_starts_refresh ctx key f s :
  goroutines (snd (lookup ctx key f s)) =
    goroutines s
    ++ (if fresh key (cache s) (Now (world s))
           && EnableAutoRefresh (config s)
           && bool_decide (0 < CacheTTL (config s))
           && bool_decide (snd (cached key (cache s)) - Now (world s)
                           < CacheTTL (config s) `quot` 2)
        then [(f, key)] else []).
Proof.
  destruct (fresh key (cache s) (Now (world s))) eqn:Hfresh.
  - by rewrite (lookup_hit_goroutines ctx key f s Hfresh).
  - pose proof (lookup_miss ctx key f s Hfresh) as H.
    destruct (upstream_of f ctx key (world s)) as [[results uerr] w].
    destruct H as (_ & _ & _ & -> & _). simpl. by rewrite app_nil_r.
Qed.

(** The background context is never done. *)
Lemma Background_Err (now : Time) : ctx_Err Background now = None.
Proof. done. Qed.

(** X13. What a refresh does when it runs. The goroutine of a refresh calls
    the upstream once, under the background context and without reading the
    cache first; when the call does not fail its answer replaces the entry
    of the key, with the expiry CacheTTL after the call came back; when it
    fails the cache is left as it is. It counts neither as a hit nor as a
    miss. *)
Theorem refresh_renews_entry f key s :
  let r := upstream_of f Background key (world s) in
  let s' := snd (run_refresh (f, key) s) in
  world s' = snd r
  ∧ stats s' = stats s
  ∧ events s' = events s ++ fetch_events (config s) Background f key (snd (fst r))
  ∧ cache s' =
      match snd (fst r) with
      | Some _ => cache s
      | None => Set_ (Now (snd r)) key (fst (fst r)) None (CacheTTL (config s)) (cache s)
      end.
Proof.
  intros r s'. subst r s'.
  pose proof (lookupAndCache_run Background key f s) as H.
  unfold run_refresh, lookupGroup_Do, mbind, M_bind, mret, M_ret.
  unfold fetch_failure in H.
  destruct (upstream_of f Background key (world s)) as [[results uerr] w].
  destruct (lookupAndCache Background key f s) as [[res err] s1].
  simpl in *. destruct H as (-> & _ & -> & -> & _ & H).
  repeat split. destruct uerr as [e|]; [by destruct H|].
  rewrite Background_Err in H. by destruct H.
Qed.

(** X14. A disabled resolver passes every call through. With Disabled set,
    LookupHost, LookupAddr and LookupIP return what the upstream call of the
    same name returns for the same arguments, and DialContext what the dialer
    returns for the address as given; each makes that one call and no other,
    calls no hook, and leaves the cache, the counters and the goroutines as
    they are. *)
Theorem Disabled_passes_through ctx network host s :
  Disabled (config s) = true →
  (fst (LookupHost ctx host s) = fst (upstream_LookupHost ctx host (world s))
   ∧ events (snd (LookupHost ctx host s))
     = events s ++ [EvUpstream upstreamLookupHost host])
  ∧ (fst (LookupAddr ctx host s) = fst (upstream_LookupAddr ctx host (world s))
     ∧ events (snd (LookupAddr ctx host s))
       = events s ++ [EvUpstream upstreamLookupAddr host])
  ∧ (fst (LookupIP ctx network host s)
       = fst (upstream_LookupIP ctx network host (world s))
     ∧ events (snd (LookupIP ctx network host s))
       = events s ++ [EvUpstreamIP network host])
  ∧ (fst (DialContext ctx network host s)
       = fst (dialer_DialContext ctx network host (world s))
     ∧ events (snd (DialContext ctx network host s))
       = events s
         ++ [EvDial network host
               (snd (fst (dialer_DialContext ctx network host (world s))))])
  ∧ (∀ s', s' ∈ [snd (LookupHost ctx host s); snd (LookupAddr ctx host s);
                 snd (LookupIP ctx network host s);
                 snd (DialContext ctx network host s)] →
       cache s' = cache s ∧ stats s' = stats s ∧ goroutines s' = goroutines s
       ∧ config s' = config s).
Proof.
  intros Hdis.
  unfold LookupHost, LookupAddr, LookupIP, DialContext, call_upstream,
    call_upstream_IP, call_dialer, r_config, mbind, M_bind, mret, M_ret.
  rewrite Hdis. simpl.
  destruct (upstream_LookupHost ctx host (world s)) as [r1 w1].
  destruct (upstream_LookupAddr ctx host (world s)) as [r2 w2].
  destruct (upstream_LookupIP ctx network host (world s)) as [r3 w3].
  destruct (dialer_DialContext ctx network host (world s)) as [r4 w4].
  simpl. repeat split; try done;
    repeat (apply elem_of_cons in H as [-> | H]; [done|]);
    by apply elem_of_nil in H.
Qed.

(** X15. A key that was looked up survives the next sweep. After any lookup
    of a key, hit or miss, failed or not, Refresh(true) keeps whatever is
    cached for the key, with its values, error and expiry; Refresh(false)
    changes nothing. *)
Theorem looked_up_key_survives_Refresh ctx key f s :
  contents (cache (snd (Refresh true (snd (lookup ctx key f s))))) !! key
    = contents (cache (snd (lookup ctx key f s))) !! key
  ∧ Refresh false s = (tt, s).
Proof.
  split; [|done].
  unfold Refresh, contents. simpl. rewrite !lookup_fmap, Prune_lookup.
  destruct (cache (snd (lookup ctx key f s)) !! key) as [item|] eqn:Hitem;
    simpl; [|done].
  by rewrite (lookup_marks ctx key f s item Hitem).
Qed.

(** ** More on LookupIP, DialContext and New *)

(** LookupIP over a fresh entry: the loop over its values. *)
Lemma LookupIP_cached ctx network host s V :
  Disabled (config s) = false →
  fresh host (cache s) (Now (world s)) = true →
  fst (cached host (cache s)) = Some V →
  fst (LookupIP ctx network host s) = (fold_left (filter_ip network) V None, None).
Proof.
  intros Hen Hfresh HV.
  destruct (lookup_hit ctx host upstreamLookupHost s Hfresh) as (Hr & _).
  unfold LookupIP, LookupHost, r_config, mbind, M_bind, mret, M_ret.
  rewrite Hen. cbn beta. rewrite Hen. rewrite HV in Hr.
  destruct (lookup ctx host upstreamLookupHost s) as [[values err] s1].
  simpl in Hr. injection Hr as -> ->. done.
Qed.

(** Two filters that agree on the elements of a list keep the same ones. *)
Lemma filter_agree {A} (P Q : A → Prop) `{∀ x, Decision (P x)} `{∀ x, Decision (Q x)}
    (l : list A) :
  Forall (λ x, P x ↔ Q x) l → filter P l = filter Q l.
Proof.
  induction 1 as [|x l Hx _ IH]; [done|].
  rewrite !filter_cons, IH. by repeat case_decide; try done; tauto.
Qed.

(** X16. The two families split the addresses. When every address that the
    strings of a fresh entry parse to has a 16-byte form, as the addresses of
    net.ParseIP have, the addresses LookupIP returns for "ip4" followed by
    those it returns for "ip6" are a rearrangement of those it returns for
    "ip": each address of the entry is returned for exactly one of the two
    families. *)
Theorem LookupIP_families_partition ctx host s V :
  Disabled (config s) = false →
  fresh host (cache s) (Now (world s)) = true →
  fst (cached host (cache s)) = Some V →
  Forall (λ ip, is_Some (To16 ip)) (omap ParseIP V) →
  elems (fst (fst (LookupIP ctx "ip4" host s)))
    ++ elems (fst (fst (LookupIP ctx "ip6" host s)))
  ≡ₚ elems (fst (fst (LookupIP ctx "ip" host s))).
Proof.
  intros Hen Hfresh HV H16.
  rewrite !(LookupIP_cached _ _ _ _ V Hen Hfresh HV). simpl.
  rewrite !(proj1 (filter_ip_fold _ V None)). simpl. unfold keep.
  repeat case_bool_decide; try done.
  rewrite (filter_agree (λ ip, To4 ip = None ∧ is_Some (To16 ip))
             (λ ip, ¬ is_Some (To4 ip))).
  - apply filter_app_complement.
  - eapply Forall_impl; [exact H16|]. intros ip Hip. simpl.
    rewrite <-eq_None_not_Some. split; [by intros [? _]|]. by split.
Qed.

(** X17. Other networks, and no address. For a network that is neither
    "ip4" nor "ip6", whatever the string, LookupIP returns every parsed
    address of a fresh entry, as for "ip". For every network, when no
    address is kept the result is the nil slice with no error, and never an
    empty slice that is not nil. *)
Theorem LookupIP_unfiltered_and_nil ctx network host s V :
  Disabled (config s) = false →
  fresh host (cache s) (Now (world s)) = true →
  fst (cached host (cache s)) = Some V →
  (network ≠ "ip4" → network ≠ "ip6" →
     elems (fst (fst (LookupIP ctx network host s))) = omap ParseIP V)
  ∧ (fst (fst (LookupIP ctx network host s)) = None
     ↔ elems (fst (fst (LookupIP ctx network host s))) = [])
  ∧ snd (fst (LookupIP ctx network host s)) = None.
Proof.
  intros Hen Hfresh HV.
  rewrite !(LookupIP_cached _ _ _ _ V Hen Hfresh HV). simpl.
  destruct (filter_ip_fold network V None) as [H1 H2].
  rewrite H1, H2. simpl. split; [|split; [|done]].
  - intros H4 H6. unfold keep. by repeat case_bool_decide.
  - split; [by intros [_ ?]|done].
Qed.

(** Dialling leaves the resolver alone. *)
Lemma dial_each_frame ctx network port ips lastErr s :
  cache (snd (dial_each ctx network port ips lastErr s)) = cache s
  ∧ stats (snd (dial_each ctx network port ips lastErr s)) = stats s
  ∧ goroutines (snd (dial_each ctx network port ips lastErr s)) = goroutines s
  ∧ config (snd (dial_each ctx network port ips lastErr s)) = config s.
Proof.
  revert lastErr s. induction ips as [|ip ips IH]; intros lastErr s; simpl.
  - by destruct lastErr.
  - unfold call_dialer, mbind, M_bind, mret, M_ret.
    destruct (dialer_DialContext ctx network (JoinHostPort ip port) (world s))
      as [[conn [e|]] w]; simpl; [|done].
    match goal with |- context [dial_each _ _ _ _ _ ?s1] =>
      destruct (IH (Some e) s1) as (-> & -> & -> & ->) end.
    done.
Qed.

(** X18. Dialling leaves the resolver to the lookup. With the cache not
    disabled and an address that splits, the cache, the counters, the
    goroutines and the configuration after DialContext are those after
    the LookupHost of the host alone: a resolution is cached and counted the
    same whether the dials that follow succeed, fail or do not take place. *)
Theorem DialContext_leaves_resolver_to_lookup ctx network address host port s :
  Disabled (config s) = false →
  SplitHostPort address = inl (host, port) →
  cache (snd (DialContext ctx network address s))
    = cache (snd (LookupHost ctx host s))
  ∧ stats (snd (DialContext ctx network address s))
    = stats (snd (LookupHost ctx host s))
  ∧ goroutines (snd (DialContext ctx network address s))
    = goroutines (snd (LookupHost ctx host s))
  ∧ config (snd (DialContext ctx network address s))
    = config (snd (LookupHost ctx host s)).
Proof.
  intros Hen Hsplit.
  unfold DialContext, r_config, mbind, M_bind, mret, M_ret.
  rewrite Hen, Hsplit.
  destruct (LookupHost ctx host s) as [[v [e|]] s1]; simpl; [done|].
  apply dial_each_frame.
Qed.

(** X19. A new resolver. New keeps a lifetime that is not zero, a negative
    one too, and replaces a zero CacheTTL by one minute and a zero
    CacheFailTTL by one second, so neither is zero afterwards; filling in
    twice changes nothing more. The new resolver has nothing cached, both
    counters at zero, and its first lookup of any key is a miss. *)
Theorem New_resolver_is_empty (cfg : Config) (w : World) (key : string) :
  CacheTTL (config (New cfg w)) ≠ 0
  ∧ CacheFailTTL (config (New cfg w)) ≠ 0
  ∧ (CacheTTL cfg ≠ 0 → CacheTTL (config (New cfg w)) = CacheTTL cfg)
  ∧ (CacheFailTTL cfg ≠ 0 → CacheFailTTL (config (New cfg w)) = CacheFailTTL cfg)
  ∧ (CacheTTL cfg = 0 → CacheTTL (config (New cfg w)) = 60 * 1000000000)
  ∧ (CacheFailTTL cfg = 0 → CacheFailTTL (config (New cfg w)) = 1000000000)
  ∧ New_config (New_config cfg) = New_config cfg
  ∧ cache (New cfg w) = ∅
  ∧ stats (New cfg w) = mkStats 0 0
  ∧ fresh key (cache (New cfg w)) (Now w) = false.
Proof.
  unfold New, New_config. simpl.
  repeat split; repeat case_bool_decide; try done.
  all: try (intros ?; congruence).
  all: intros ?; by repeat case_bool_decide.
Qed.

End Resolver.

(** ** The resolvers of one family (NewOnlyV4, NewOnlyV6) *)

Section IPVersion.

(** The resolver behind: [net.DefaultResolver], and [ip.String()]. *)
Context {World IP : Type}.
Variable DefaultResolver_LookupIP :
  Ctx → string → string → World → (option (list IP) * option error) * World.
Variable DefaultResolver_LookupAddr :
  Ctx → string → World → (strings * option error) * World.
Variable IP_String : IP → string.

(** [ipVersionResolver{network: ...}], the upstream NewOnlyV4 sets with "ip4"
    and NewOnlyV6 with "ip6". *)
Record ipVersionResolver : Type := mk_ipVersionResolver {
  network : string
}.

(** [for i, ip := range ips { strs[i] = ip.String() }], from index [i] on. *)
Fixpoint fill_strings (i : nat) (ips : list IP) (strs : list string) : list string :=
  match ips with
  | [] => strs
  | ip :: rest => fill_strings (S i) rest (<[i := IP_String ip]> strs)
  end.

Definition ipVersionResolver_LookupHost (r : ipVersionResolver) (ctx : Ctx)
    (host : string) (w : World) : (strings * option error) * World :=
  let '((ips, err), w') := DefaultResolver_LookupIP ctx (network r) host w in
  match err with
  | Some e => ((None, Some e), w')
  | None =>
      let strs := replicate (length (elems ips)) EmptyString in
      ((Some (fill_strings 0 (elems ips) strs), None), w')
  end.

Definition ipVersionResolver_LookupAddr (r : ipVersionResolver) (ctx : Ctx)
    (addr : string) (w : World) : (strings * option error) * World :=
  DefaultResolver_LookupAddr ctx addr w.

Definition ipVersionResolver_LookupIP (r : ipVersionResolver) (ctx : Ctx)
    (network0 host : string) (w : World)
  : (option (list IP) * option error) * World :=
  let network1 := if bool_decide (network0 = "ip") then network r else network0 in
  DefaultResolver_LookupIP ctx network1 host w.

Lemma fill_strings_app (ips : list IP) (pre strs : list string) :
  length strs = length ips →
  fill_strings (length pre) ips (pre ++ strs) = pre ++ (IP_String <$> ips).
Proof.
  revert pre strs. induction ips as [|ip ips IH]; intros pre strs Hlen.
  - destruct strs; [done|discriminate].
  - destruct strs as [|x strs]; [discriminate|]. simpl in *.
    rewrite insert_app_r_alt by done. rewrite Nat.sub_diag. simpl.
    specialize (IH (pre ++ [IP_String ip]) strs).
    rewrite length_app, <-app_assoc in IH. simpl in IH.
    rewrite Nat.add_1_r in IH. rewrite IH by lia. by rewrite <-app_assoc.
Qed.

(** X20. The forward lookup of a one-family resolver. It asks the resolver
    behind for the addresses of its own family. When that fails it returns
    nil and the error; otherwise it returns one string for each address, the
    string of the address, in the same order, in a slice that is never nil,
    also when there is no address. Its LookupIP asks for its own family when
    the caller asks for "ip", and for the family the caller names otherwise,
    be it the other one. *)
Theorem ipVersionResolver_strings (r : ipVersionResolver) ctx network0 host w :
  ipVersionResolver_LookupHost r ctx host w =
    (match snd (fst (DefaultResolver_LookupIP ctx (network r) host w)) with
     | Some e => (None, Some e)
     | None =>
         (Some (IP_String <$>
                  elems (fst (fst (DefaultResolver_LookupIP ctx (network r) host w)))),
          None)
     end,
     snd (DefaultResolver_LookupIP ctx (network r) host w))
  ∧ ipVersionResolver_LookupIP r ctx "ip" host w
    = DefaultResolver_LookupIP ctx (network r) host w
  ∧ (network0 ≠ "ip" →
     ipVersionResolver_LookupIP r ctx network0 host w
     = DefaultResolver_LookupIP ctx network0 host w).
Proof.
  split; [|split].
  - unfold ipVersionResolver_LookupHost.
    destruct (DefaultResolver_LookupIP ctx (network r) host w) as [[ips [e|]] w'];
      simpl; [done|].
    pose proof (fill_strings_app (elems ips) []
                  (replicate (length (elems ips)) EmptyString)) as H.
    simpl in H. rewrite H; [done|apply length_replicate].
  - unfold ipVersionResolver_LookupIP. by rewrite bool_decide_eq_true_2.
  - intros Hne. unfold ipVersionResolver_LookupIP.
    by rewrite bool_decide_eq_false_2.
Qed.

End IPVersion.

(** ** Stopping the cleanup loop *)

Module Stopping.

(** The channel [r.stop], closed or not, and [r.stopOnce], done or not. *)
Record Stopper : Type := mkStopper {
  stop_closed : bool;
  stopOnce_done : bool
}.

(** [make(chan struct{})] and a new [sync.Once], as New leaves them. *)
Definition new_stopper : Stopper := mkStopper false false.

(** [close(r.stop)]: closing a closed channel panics, [None]. *)
Definition close_stop (st : Stopper) : option Stopper :=
  if stop_closed st then None else Some (mkStopper true (stopOnce_done st)).

(** [r.stopOnce.Do(f)]: the first call runs [f], the others return at once. *)
Definition stopOnce_Do (f : Stopper → option Stopper) (st : Stopper)
  : option Stopper :=
  if stopOnce_done st then Some st
  else f (mkStopper (stop_closed st) true).

Definition Stop (st : Stopper) : option Stopper := stopOnce_Do close_stop st.

(** [n] calls of Stop in a row, stopping at a panic. *)
Fixpoint Stops (n : nat) (st : Stopper) : option Stopper :=
  match n with
  | O => Some st
  | S n => st' ← Stop st; Stops n st'
  end.

(** X21. Stop may be called any number of times. From a new resolver, any
    number of calls of Stop in a row ends without a panic; after the first
    call the channel is closed, and it stays closed and is closed no second
    time. Closing the channel twice without the Once would panic. *)
Theorem Stop_is_idempotent (n : nat) :
  Stops (S n) new_stopper = Some (mkStopper true true)
  ∧ Stop (mkStopper true true) = Some (mkStopper true true)
  ∧ (st ← close_stop new_stopper; close_stop st) = None.
Proof.
  split; [|done].
  assert (∀ m, Stops m (mkStopper true true) = Some (mkStopper true true)) as H.
  { induction m as [|m IH]; [done|]. simpl. exact IH. }
  simpl. apply H.
Qed.

End Stopping.

(** ** A world for the tests of the repository

    The clock is the world. The upstream resolver answers from a table of
    the hosts the tests use, and with the error of the context once the
    context is done; the dialer finds a listener on 127.0.0.1 only. The
    functions of package [net] are given for the strings the tests use:
    addresses without brackets, the four addresses of the filtering test. *)

Module TestWorld.

Definition World : Type := Time.
Definition Now (w : World) : Time := w.

(** [time.Sleep(d)]. *)
Definition Sleep (d : Duration) (s : @State World) : @State World :=
  set_world (world s + d) s.

Definition table (host : string) : strings * option error :=
  if bool_decide (host = "fail.com") then (None, Some (ErrOther "upstream failure"))
  else if bool_decide (host = "nonexistent.test.local") then (None, Some (ErrOther "no such host"))
  else if bool_decide (host = "example.com") then (Some ["1.1.1.1"], None)
  else if bool_decide (host = "multi.test") then (Some ["1.1.1.1"; "2.2.2.2"; "3.3.3.3"], None)
  else if bool_decide (host = "test.local") then (Some ["10.255.255.1"; "127.0.0.1"], None)
  else if bool_decide (host = "noaddrs.test") then (Some [], None)
  else if bool_decide (host = "mixed.test")
       then (Some ["192.168.1.1"; "10.0.0.1"; "2001:db8::1"; "::1"], None)
  else (None, Some (ErrOther "no such host")).

Definition upstream (ctx : Ctx) (host : string) (w : World)
  : (strings * option error) * World :=
  match ctx_Err ctx (Now w) with
  | Some e => ((None, Some e), w)
  | None => (table host, w)
  end.

(** A connection is known by the address it reached. *)
Definition Conn : Type := string.

Definition dialer (ctx : Ctx) (network address : string) (w : World)
  : (option Conn * option error) * World :=
  if bool_decide (address = "127.0.0.1:80") then ((Some address, None), w)
  else ((None, Some (ErrOther ("dial " +:+ address +:+ ": i/o timeout"))), w).

(** The part of the string before its last colon, and the part after it. *)
Fixpoint split_last_colon (s : string) : option (string * string) :=
  match s with
  | EmptyString => None
  | String c rest =>
      match split_last_colon rest with
      | Some (h, p) => Some (String c h, p)
      | None => if bool_decide (c = ":"%char) then Some (EmptyString, rest) else None
      end
  end.

Fixpoint has_colon (s : string) : bool :=
  match s with
  | EmptyString => false
  | String c rest => bool_decide (c = ":"%char) || has_colon rest
  end.

Definition SplitHostPort (hostport : string) : (string * string) + error :=
  match split_last_colon hostport with
  | None => inr (AddrError "missing port in address" hostport)
  | Some (host, port) =>
      if has_colon host then inr (AddrError "too many colons in address" hostport)
      else inl (host, port)
  end.

Definition JoinHostPort (host port : string) : string :=
  if has_colon host then "[" +:+ host +:+ "]:" +:+ port
  else host +:+ ":" +:+ port.

(** An address is its bytes, 4 or 16 of them. *)
Definition IP : Type := list Z.

Definition v4InV6Prefix : list Z := [0; 0; 0; 0; 0; 0; 0; 0; 0; 0; 255; 255].

Definition ParseIP (s : string) : option IP :=
  if bool_decide (s = "192.168.1.1") then Some (v4InV6Prefix ++ [192; 168; 1; 1])
  else if bool_decide (s = "10.0.0.1") then Some (v4InV6Prefix ++ [10; 0; 0; 1])
  else if bool_decide (s = "2001:db8::1")
       then Some [32; 1; 13; 184; 0; 0; 0; 0; 0; 0; 0; 0; 0; 0; 0; 1]
  else if bool_decide (s = "::1")
       then Some [0; 0; 0; 0; 0; 0; 0; 0; 0; 0; 0; 0; 0; 0; 0; 1]
  else None.

Definition To4 (ip : IP) : option IP :=
  if bool_decide (length ip = 4%nat) then Some ip
  else if bool_decide (length ip = 16%nat)
          && bool_decide (take 12 ip = v4InV6Prefix)
       then Some (drop 12 ip)
       else None.

Definition To16 (ip : IP) : option IP :=
  if bool_decide (length ip = 4%nat) then Some (v4InV6Prefix ++ ip)
  else if bool_decide (length ip = 16%nat) then Some ip
  else None.

Definition upstream_IP (ctx : Ctx) (network host : string) (w : World)
  : (option (list IP) * option error) * World :=
  ((None, None), w).

Definition LookupHost := @LookupHost World Now upstream upstream.
Definition LookupIP :=
  @LookupIP World IP Now upstream upstream upstream_IP ParseIP To4 To16.
Definition DialContext :=
  @DialContext World Conn Now upstream upstream dialer SplitHostPort JoinHostPort.
Definition lookup := @lookup World Now upstream upstream.
Definition play := @play World Now upstream upstream.

End TestWorld.

(** ** The tests of the repository, run on the code *)

Module Tests.

Import TestWorld.

Definition defaults : Config := mkConfig false false false 0 0 false false 0.

(** [Config{CacheFailTTL: 50 * time.Millisecond}] (TestNegativeCaching). *)
Definition negative_config : Config :=
  mkConfig false false false 0 (50 * Millisecond) false false 0.

(** [Config{CacheTTL: 10 * time.Millisecond, OnChange: ...}] (TestOnChange). *)
Definition onchange_config : Config :=
  mkConfig false false true (10 * Millisecond) 0 false false 0.

(** [Config{CacheTTL: time.Millisecond, PersistOnFailure: b}]
    (TestPersistOnFailure). *)
Definition persist_config (b : bool) : Config :=
  mkConfig false false false Millisecond 0 false b 0.

(** The time the tests start at. *)
Definition t0 : Time := 1000 * Second.

(** The resolver of TestPersistOnFailure after
    [cache.Set(key, []string{"127.0.0.2"}, nil, -time.Second)]. *)
Definition stale_state (b : bool) : @State World :=
  set_cache
    (Set_ t0 "nonexistent.test.local" (Some ["127.0.0.2"]) None (- Second)
       newMemoryCache)
    (New (persist_config b) t0).

(** A context whose cancel function was called before the lookup. *)
Definition cancelled : Ctx :=
  {| cancelAt := Some 0; deadline := None; clientTrace := None |}.

(** The resolver of TestLookupIP_NetworkFiltering after a first lookup of
    "mixed.test". *)
Definition mixed_state : @State World :=
  snd (LookupHost Background "mixed.test" (New defaults t0)).

(** C1, on the code. The upstream always fails and CacheFailTTL is 50 ms
    (TestNegativeCaching). The first lookup of "fail.com" fails and leaves the
    cache empty; a second lookup at the same instant, within the 50 ms, calls
    the upstream again. *)
Theorem failed_lookup_is_fetched_again :
  let s0 := New negative_config t0 in
  let r1 := LookupHost Background "fail.com" s0 in
  let r2 := LookupHost Background "fail.com" (snd r1) in
  CacheFailTTL (config s0) = 50 * Millisecond
  ∧ fst r1 = (None, Some (ErrOther "upstream failure"))
  ∧ cache (snd r1) = ∅
  ∧ Now (world (snd r1)) = t0
  ∧ fst r2 = (None, Some (ErrOther "upstream failure"))
  ∧ events (snd r2) =
      [EvUpstream upstreamLookupHost "fail.com";
       EvUpstream upstreamLookupHost "fail.com"].
Proof. vm_compute. repeat split; reflexivity. Qed.

(** C3, on the code. OnChange is set and nothing is cached for "example.com"
    (TestOnChange, first lookup). The lookup stores the new addresses with the
    lifetime CacheTTL, and its only event is the upstream call: the hook is
    not called, though the addresses changed from none to one. *)
Theorem changed_addresses_not_notified :
  let s0 := New onchange_config t0 in
  let r1 := LookupHost Background "example.com" s0 in
  OnChange (config s0) = true
  ∧ cache s0 !! "example.com" = None
  ∧ fst r1 = (Some ["1.1.1.1"], None)
  ∧ cache (snd r1) !! "example.com"
    = Some (mkItem (Some ["1.1.1.1"]) None (t0 + 10 * Millisecond) true)
  ∧ events (snd r1) = [EvUpstream upstreamLookupHost "example.com"].
Proof. vm_compute. repeat split; reflexivity. Qed.

(** C8, on the code. "multi.test" resolves to 1.1.1.1, 2.2.2.2, 3.3.3.3 and
    no dial succeeds. Two calls of DialContext in a row dial the three
    addresses in the order of the resolver, both starting at 1.1.1.1. *)
Theorem DialContext_keeps_resolver_order :
  let s0 := New defaults t0 in
  let r1 := DialContext Background "tcp" "multi.test:80" s0 in
  let r2 := DialContext Background "tcp" "multi.test:80" (snd r1) in
  let timeout a := Some (ErrOther ("dial " +:+ a +:+ ": i/o timeout")) in
  events (snd r1) =
    [EvUpstream upstreamLookupHost "multi.test";
     EvDial "tcp" "1.1.1.1:80" (timeout "1.1.1.1:80");
     EvDial "tcp" "2.2.2.2:80" (timeout "2.2.2.2:80");
     EvDial "tcp" "3.3.3.3:80" (timeout "3.3.3.3:80")]
  ∧ events (snd r2) =
      events (snd r1)
      ++ [EvDial "tcp" "1.1.1.1:80" (timeout "1.1.1.1:80");
          EvDial "tcp" "2.2.2.2:80" (timeout "2.2.2.2:80");
          EvDial "tcp" "3.3.3.3:80" (timeout "3.3.3.3:80")].
Proof. vm_compute. split; reflexivity. Qed.

(** C6, as stated, fails. PersistOnFailure is set and the cache holds the
    expired values of TestPersistOnFailure. The context of the caller is
    cancelled, and the upstream answers with that error. The lookup does not
    return the cancellation: it returns the stale values and no error. *)
Lemma cancelled_lookup_returns_stale_values :
  let s := stale_state true in
  let key := "nonexistent.test.local" in
  ctx_Err cancelled (Now (world s)) = Some Canceled
  ∧ fst (upstream cancelled key (world s)) = (None, Some Canceled)
  ∧ fst (LookupHost cancelled key s) = (Some ["127.0.0.2"], None).
Proof. vm_compute. repeat split; reflexivity. Qed.

(** [Config{OnCacheMiss: ...}] (TestOnCacheMissAndSingleflight), and the same
    with [CacheTTL: 10 * time.Millisecond]. *)
Definition miss_hook_config : Config :=
  mkConfig false true false 0 0 false false 0.


(** The same schedule over an upstream that fails: the failure is not stored
    (C1), and the second caller fetches again. *)
Example late_caller_repeats_failed_fetch :
  let key := "fail.com" in
  let fetch := EvUpstream upstreamLookupHost key in
  let run :=
    play [Turn 0; Turn 1; Turn 0; Turn 0; Turn 0; Turn 1; Turn 1; Turn 1]
      (New miss_hook_config t0, start key upstreamLookupHost [Background; Background]) in
  events (fst run) = [EvOnCacheMiss key; fetch; EvOnCacheMiss key; fetch]
  ∧ cache (fst run) = ∅.
Proof. vm_compute. split; reflexivity. Qed.


Lemma cancellation_not_cached_witness :
  let s := New defaults t0 in
  contents (cache (snd (lookup cancelled "cancel.test" upstreamLookupHost s)))
    = contents (cache s)
  ∧ fst (lookup cancelled "cancel.test" upstreamLookupHost s)
    = (None, Some Canceled).
Proof.
  exact (cancellation_not_cached Now upstream upstream cancelled "cancel.test"
           upstreamLookupHost (New defaults t0) Canceled
           eq_refl eq_refl (or_intror eq_refl)).
Defined.

Lemma PersistOnFailure_returns_stale_witness :
  fst (lookup Background "nonexistent.test.local" upstreamLookupHost
         (stale_state true))
    = (Some ["127.0.0.2"], None)
  ∧ fst (lookup Background "nonexistent.test.local" upstreamLookupHost
           (stale_state false))
    = (None, Some (ErrOther "no such host")).
Proof.
  split.
  - apply (PersistOnFailure_returns_stale Now upstream upstream Background
             "nonexistent.test.local" upstreamLookupHost (stale_state true)
             (mkItem (Some ["127.0.0.2"]) None (t0 - Second) true)
             ["127.0.0.2"] (ErrOther "no such host"));
      [reflexivity | reflexivity | vm_compute; discriminate | reflexivity].
  - apply (PersistOnFailure_returns_stale Now upstream upstream Background
             "nonexistent.test.local" upstreamLookupHost (stale_state false)
             (mkItem (Some ["127.0.0.2"]) None (t0 - Second) true)
             ["127.0.0.2"] (ErrOther "no such host"));
      [reflexivity | reflexivity | vm_compute; discriminate | reflexivity].
Defined.

Lemma LookupIP_filters_by_family_witness :
  elems (fst (fst (LookupIP Background "ip4" "mixed.test" mixed_state)))
    = [v4InV6Prefix ++ [192; 168; 1; 1]; v4InV6Prefix ++ [10; 0; 0; 1]]
  ∧ elems (fst (fst (LookupIP Background "ip6" "mixed.test" mixed_state)))
    = [[32; 1; 13; 184; 0; 0; 0; 0; 0; 0; 0; 0; 0; 0; 0; 1];
       [0; 0; 0; 0; 0; 0; 0; 0; 0; 0; 0; 0; 0; 0; 0; 1]]
  ∧ length (elems (fst (fst (LookupIP Background "ip" "mixed.test" mixed_state))))
    = 4%nat.
Proof.
  pose proof (λ network,
    LookupIP_filters_by_family Now upstream upstream upstream_IP
      ParseIP To4 To16 Background network "mixed.test" mixed_state
      ["192.168.1.1"; "10.0.0.1"; "2001:db8::1"; "::1"]
      eq_refl eq_refl eq_refl) as H.
  split; [|split].
  - exact (proj1 (proj2 (H "ip4")) eq_refl).
  - exact (proj1 (proj2 (proj2 (H "ip6"))) eq_refl).
  - exact (f_equal length (proj1 (proj2 (proj2 (proj2 (H "ip"))) eq_refl))).
Defined.

Lemma DialContext_failover_witness :
  let s0 := New defaults t0 in
  DialContext Background "tcp" "example.com" s0
    = ((None, Some (AddrError "missing port in address" "example.com")), s0)
  ∧ fst (DialContext Background "tcp" "test.local:80" s0)
    = (Some "127.0.0.1:80", None)
  ∧ fst (DialContext Background "tcp" "noaddrs.test:80" s0)
    = (None, Some (OpError "dial" "tcp" (UnknownNetworkError "no addresses found"))).
Proof.
  pose proof (λ address,
    DialContext_failover Now upstream upstream dialer SplitHostPort
      JoinHostPort Background "tcp" address (New defaults t0) eq_refl) as H.
  split; [|split].
  - exact (proj1 (H "example.com") _ eq_refl).
  - destruct (proj2 (H "test.local:80") "test.local" "80" eq_refl) as [_ H2].
    destruct (H2 eq_refl) as [H3 _].
    refine (proj1 (H3 [((None, Some (ErrOther "dial 10.255.255.1:80: i/o timeout")), t0)]
                     (Some "127.0.0.1:80") t0 [] eq_refl _)).
    repeat constructor. eexists. reflexivity.
  - destruct (proj2 (H "noaddrs.test:80") "noaddrs.test" "80" eq_refl) as [_ H2].
    destruct (H2 eq_refl) as (_ & _ & H3).
    exact (H3 eq_refl).
Defined.

(** *** Instances of the further properties *)

(** [Config{Disabled: true}]. *)
Definition disabled_config : Config :=
  mkConfig true true true 0 0 false false 0.

Lemma hit_is_served_in_any_context_witness :
  fst (lookup cancelled "mixed.test" upstreamLookupAddr mixed_state)
    = (Some ["192.168.1.1"; "10.0.0.1"; "2001:db8::1"; "::1"], None)
  ∧ events (snd (lookup cancelled "mixed.test" upstreamLookupAddr mixed_state))
    = events mixed_state.
Proof.
  pose proof (hit_is_served_in_any_context Now upstream upstream cancelled
                "mixed.test" upstreamLookupAddr mixed_state eq_refl) as H.
  split; [exact (proj1 H)|exact (proj1 (proj2 (proj2 (proj2 H))))].
Defined.

Lemma fetched_answer_is_stored_witness :
  let s := New defaults t0 in
  fst (lookup Background "example.com" upstreamLookupHost s)
    = (Some ["1.1.1.1"], None)
  ∧ cache (snd (lookup Background "example.com" upstreamLookupHost s))
      !! "example.com"
    = Some (mkItem (Some ["1.1.1.1"]) None (t0 + Minute) true).
Proof.
  pose proof (fetched_answer_is_stored Now upstream upstream Background
                "example.com" upstreamLookupHost (New defaults t0)
                eq_refl eq_refl) as H.
  split; [exact (proj1 H)|exact (proj1 (proj2 H))].
Defined.

Lemma stored_answer_is_hit_iff_witness :
  let s1 := snd (lookup Background "example.com" upstreamLookupHost (New defaults t0)) in
  fresh "example.com" (cache s1) (t0 + 30 * Second) = true.
Proof.
  apply (proj1 (stored_answer_is_hit_iff Now upstream upstream Background
                  "example.com" upstreamLookupHost (New defaults t0)
                  (t0 + 30 * Second) eq_refl eq_refl)).
  split; [discriminate|reflexivity].
Defined.

Lemma next_lookup_is_served_from_cache_witness :
  let s1 := snd (lookup Background "example.com" upstreamLookupHost (New defaults t0)) in
  fst (lookup cancelled "example.com" upstreamLookupAddr (Sleep (30 * Second) s1))
    = (Some ["1.1.1.1"], None)
  ∧ events (snd (lookup cancelled "example.com" upstreamLookupAddr
                   (Sleep (30 * Second) s1)))
    = events s1.
Proof.
  pose proof (proj1 (next_lookup_is_served_from_cache Now upstream upstream
                Background "example.com" upstreamLookupHost (New defaults t0)
                ["1.1.1.1"] cancelled upstreamLookupAddr (t0 + 30 * Second)
                eq_refl eq_refl eq_refl) eq_refl) as H.
  split; [exact (proj1 H)|exact (proj1 (proj2 H))].
Defined.

Lemma failure_without_values_is_returned_witness :
  fst (lookup Background "fail.com" upstreamLookupHost (New (persist_config true) t0))
    = (None, Some (ErrOther "upstream failure")).
Proof.
  exact (proj1 (failure_without_values_is_returned Now upstream upstream
                  Background "fail.com" upstreamLookupHost
                  (New (persist_config true) t0) (ErrOther "upstream failure")
                  eq_refl eq_refl)).
Defined.

Lemma Disabled_passes_through_witness :
  let s := New disabled_config t0 in
  fst (LookupHost Background "example.com" s) = (Some ["1.1.1.1"], None)
  ∧ events (snd (LookupHost Background "example.com" s))
    = [EvUpstream upstreamLookupHost "example.com"]
  ∧ cache (snd (LookupHost Background "example.com" s)) = ∅.
Proof.
  pose proof (Disabled_passes_through Now upstream upstream upstream_IP dialer
                SplitHostPort JoinHostPort ParseIP To4 To16 Background "tcp"
                "example.com" (New disabled_config t0) eq_refl) as H.
  destruct H as ((H1 & H2) & _ & _ & _ & H5).
  split; [exact H1|split; [exact H2|]].
  refine (proj1 (H5 _ _)). constructor.
Defined.

Lemma LookupIP_families_partition_witness :
  elems (fst (fst (LookupIP Background "ip4" "mixed.test" mixed_state)))
    ++ elems (fst (fst (LookupIP Background "ip6" "mixed.test" mixed_state)))
  ≡ₚ elems (fst (fst (LookupIP Background "ip" "mixed.test" mixed_state))).
Proof.
  apply (LookupIP_families_partition Now upstream upstream upstream_IP
           ParseIP To4 To16 Background "mixed.test" mixed_state
           ["192.168.1.1"; "10.0.0.1"; "2001:db8::1"; "::1"]
           eq_refl eq_refl eq_refl).
  vm_compute. repeat constructor; eexists; reflexivity.
Defined.

Lemma LookupIP_unfiltered_and_nil_witness :
  length (elems (fst (fst (LookupIP Background "tcp" "mixed.test" mixed_state))))
    = 4%nat.
Proof.
  pose proof (LookupIP_unfiltered_and_nil Now upstream upstream upstream_IP
                ParseIP To4 To16 Background "tcp" "mixed.test" mixed_state
                ["192.168.1.1"; "10.0.0.1"; "2001:db8::1"; "::1"]
                eq_refl eq_refl eq_refl) as H.
  refine (f_equal length (proj1 H _ _)); discriminate.
Defined.

Lemma DialContext_leaves_resolver_to_lookup_witness :
  let s := New defaults t0 in
  cache (snd (DialContext Background "tcp" "multi.test:80" s))
    = cache (snd (LookupHost Background "multi.test" s)).
Proof.
  exact (proj1 (DialContext_leaves_resolver_to_lookup Now upstream upstream
                  dialer SplitHostPort JoinHostPort Background "tcp"
                  "multi.test:80" "multi.test" "80" (New defaults t0)
                  eq_refl eq_refl)).
Defined.

End Tests.
